(** * Boutique Diniz API: src/config/database.js

    A shallow embedding of the database configuration module: the three
    lazily opened SQLite connections ([coreDb], [authDb], [auditDb]), the
    connection set-up [initDatabase], the table bootstrap functions
    [ensureCoreTables], [ensureAuthTables] and [ensureAuditTables], the
    getters [getCore], [getAuth] and [getAudit], [closeAll] and
    [transaction].

    Layout: the SQL statements the module issues, as data; the storage
    engine the statements run on; the world the module lives in (its three
    variables, the logger, the engine); the functions of the module; the
    properties. *)

From stdpp Require Import gmap strings list fin_maps.

Open Scope string_scope.
Open Scope Z_scope.

(** ** Errors

    A thrown JavaScript value. [Error] is the plain [Error] an engine or the
    module loader throws. database.js constructs no error of its own: the
    three other classes are the taxonomy the design document names for this
    module, kept here so that statements can speak about them. *)
Inductive js_error :=
| Error (message : string)
| ConnectionError (store : string) (cause : js_error)
| SchemaError (cause : js_error)
| TransactionError (cause : js_error).

#[global] Instance js_error_eq_dec : EqDecision js_error.
Proof. solve_decision. Defined.

(** [error.message] *)
Fixpoint message (e : js_error) : string :=
  match e with
  | Error m => m
  | ConnectionError s c => "cannot open store " ++ s ++ ": " ++ message c
  | SchemaError c => "schema: " ++ message c
  | TransactionError c => "transaction: " ++ message c
  end.

(** ** SQL as the module writes it *)
Module Sql.

Inductive value :=
| VNull
| VInt (z : Z)
| VText (s : string)
| VDatetime (t : nat).

#[global] Instance value_eq_dec : EqDecision value.
Proof. solve_decision. Defined.

Inductive sqltype := INTEGER | TEXT | REAL.

Inductive on_delete := NO_ACTION | CASCADE | SET_NULL.

(** Column constraints, in the spelling of the source. [DEFAULT_NOW] is
    [DEFAULT (datetime('now'))]; [CHECK_IN] is [CHECK(c IN (...))];
    [CHECK_EQ] is [CHECK(c = z)]. *)
Inductive col_constraint :=
| PRIMARY_KEY
| PRIMARY_KEY_AUTOINCREMENT
| UNIQUE
| NOT_NULL
| DEFAULT (v : value)
| DEFAULT_NOW
| CHECK_IN (allowed : list string)
| CHECK_EQ (z : Z).

Record column := Col {
  c_name : string;
  c_type : sqltype;
  c_constraints : list col_constraint
}.

Inductive table_constraint :=
| FOREIGN_KEY (col parent pcol : string) (act : on_delete)
| UNIQUE_OF (cols : list string)
| PRIMARY_KEY_OF (cols : list string).

Inductive stmt :=
| CREATE_TABLE_IF_NOT_EXISTS (name : string) (cols : list column)
    (tcs : list table_constraint)
| CREATE_INDEX_IF_NOT_EXISTS (name table : string) (cols : list string)
| INSERT_OR_IGNORE (table : string) (cols : list string) (vals : list value).

(** [SELECT col FROM table WHERE wcol = v] *)
Record query := SELECT_FROM_WHERE {
  q_col : string;
  q_table : string;
  q_wcol : string;
  q_val : value
}.

#[global] Instance sqltype_eq_dec : EqDecision sqltype.
Proof. solve_decision. Defined.
#[global] Instance on_delete_eq_dec : EqDecision on_delete.
Proof. solve_decision. Defined.
#[global] Instance col_constraint_eq_dec : EqDecision col_constraint.
Proof. solve_decision. Defined.
#[global] Instance column_eq_dec : EqDecision column.
Proof. solve_decision. Defined.
#[global] Instance table_constraint_eq_dec : EqDecision table_constraint.
Proof. solve_decision. Defined.

End Sql.
Import Sql.

(** ** The statements of [ensureCoreTables]

    One definition per [db.exec] call, in the order of the source; a call
    that passes several statements in one string is a list of several. *)
Module CoreDdl.

Definition id_autoincrement : column := Col "id" INTEGER [PRIMARY_KEY_AUTOINCREMENT].
Definition criado_em : column := Col "criado_em" TEXT [NOT_NULL; DEFAULT_NOW].
Definition ativo : column := Col "ativo" INTEGER [NOT_NULL; DEFAULT (VInt 1)].

Definition filial : list stmt := [
  CREATE_TABLE_IF_NOT_EXISTS "filial" [
    id_autoincrement;
    Col "nome" TEXT [UNIQUE; NOT_NULL];
    Col "tipo" TEXT [NOT_NULL; CHECK_IN ["loja"; "site"; "estoque"; "adm"]];
    ativo;
    criado_em ] [] ].

Definition cliente : list stmt := [
  CREATE_TABLE_IF_NOT_EXISTS "cliente" [
    id_autoincrement;
    Col "nome_completo" TEXT [NOT_NULL];
    Col "cpf" TEXT [UNIQUE; NOT_NULL];
    Col "cpf_hash" TEXT [UNIQUE; NOT_NULL];
    Col "email" TEXT [];
    Col "celular" TEXT [];
    Col "sexo" TEXT [CHECK_IN ["M"; "F"; "O"; "N"]];
    Col "senha_hash" TEXT [];
    ativo;
    criado_em;
    Col "atualizado_em" TEXT [] ] [];
  CREATE_INDEX_IF_NOT_EXISTS "idx_cliente_cpf_hash" "cliente" ["cpf_hash"];
  CREATE_INDEX_IF_NOT_EXISTS "idx_cliente_email" "cliente" ["email"] ].

Definition cliente_endereco : list stmt := [
  CREATE_TABLE_IF_NOT_EXISTS "cliente_endereco" [
    id_autoincrement;
    Col "cliente_id" INTEGER [NOT_NULL];
    Col "tipo" TEXT [NOT_NULL; CHECK_IN ["casa"; "trabalho"; "outro"]];
    Col "rua" TEXT [NOT_NULL];
    Col "numero" TEXT [];
    Col "complemento" TEXT [];
    Col "bairro" TEXT [];
    Col "cidade" TEXT [NOT_NULL];
    Col "estado" TEXT [NOT_NULL];
    Col "cep" TEXT [];
    Col "referencia" TEXT [];
    Col "principal" INTEGER [NOT_NULL; DEFAULT (VInt 0)];
    criado_em ]
    [ FOREIGN_KEY "cliente_id" "cliente" "id" CASCADE ];
  CREATE_INDEX_IF_NOT_EXISTS "idx_endereco_cliente" "cliente_endereco" ["cliente_id"] ].

Definition fornecedor : list stmt := [
  CREATE_TABLE_IF_NOT_EXISTS "fornecedor" [
    id_autoincrement;
    Col "nome_fantasia" TEXT [NOT_NULL];
    Col "razao_social" TEXT [];
    Col "cnpj" TEXT [UNIQUE];
    Col "contato_nome" TEXT [];
    Col "telefone" TEXT [];
    Col "email" TEXT [];
    Col "prazo_entrega_dias" INTEGER [];
    Col "observacoes" TEXT [];
    ativo;
    criado_em ] [] ].

Definition categoria : list stmt := [
  CREATE_TABLE_IF_NOT_EXISTS "categoria" [
    id_autoincrement;
    Col "nome" TEXT [NOT_NULL];
    Col "logo_caminho" TEXT [];
    Col "imagem_caminho" TEXT [];
    ativo;
    criado_em;
    Col "atualizado_em" TEXT [] ] [];
  CREATE_INDEX_IF_NOT_EXISTS "idx_categoria_nome" "categoria" ["nome"] ].

Definition produto : list stmt := [
  CREATE_TABLE_IF_NOT_EXISTS "produto" [
    id_autoincrement;
    Col "sku" TEXT [UNIQUE];
    Col "nome" TEXT [NOT_NULL];
    Col "descricao" TEXT [];
    Col "fornecedor_id" INTEGER [];
    Col "filial_id" INTEGER [NOT_NULL];
    Col "categoria_id" INTEGER [];
    Col "preco" REAL [NOT_NULL];
    Col "desconto_valor" REAL [];
    Col "desconto_percent" REAL [];
    Col "parcelavel" INTEGER [NOT_NULL; DEFAULT (VInt 0)];
    Col "parcelas_max" INTEGER [];
    ativo;
    criado_em;
    Col "atualizado_em" TEXT [];
    Col "atualizado_por_usuario_id" INTEGER [] ]
    [ FOREIGN_KEY "fornecedor_id" "fornecedor" "id" NO_ACTION;
      FOREIGN_KEY "filial_id" "filial" "id" NO_ACTION;
      FOREIGN_KEY "categoria_id" "categoria" "id" NO_ACTION ];
  CREATE_INDEX_IF_NOT_EXISTS "idx_produto_sku" "produto" ["sku"];
  CREATE_INDEX_IF_NOT_EXISTS "idx_produto_filial" "produto" ["filial_id"];
  CREATE_INDEX_IF_NOT_EXISTS "idx_produto_categoria" "produto" ["categoria_id"] ].

Definition produto_variante : list stmt := [
  CREATE_TABLE_IF_NOT_EXISTS "produto_variante" [
    id_autoincrement;
    Col "produto_id" INTEGER [NOT_NULL];
    Col "tamanho" TEXT [NOT_NULL];
    Col "cor" TEXT [NOT_NULL];
    Col "estoque" INTEGER [NOT_NULL; DEFAULT (VInt 0)];
    Col "estoque_minimo" INTEGER [NOT_NULL; DEFAULT (VInt 0)];
    ativo;
    criado_em;
    Col "atualizado_em" TEXT [] ]
    [ FOREIGN_KEY "produto_id" "produto" "id" CASCADE;
      UNIQUE_OF ["produto_id"; "tamanho"; "cor"] ];
  CREATE_INDEX_IF_NOT_EXISTS "idx_variante_produto" "produto_variante" ["produto_id"] ].

Definition produto_imagem : list stmt := [
  CREATE_TABLE_IF_NOT_EXISTS "produto_imagem" [
    id_autoincrement;
    Col "produto_id" INTEGER [NOT_NULL];
    Col "variante_id" INTEGER [];
    Col "caminho" TEXT [NOT_NULL];
    Col "mime" TEXT [];
    Col "size_bytes" INTEGER [];
    Col "ordem" INTEGER [NOT_NULL; DEFAULT (VInt 0)];
    criado_em ]
    [ FOREIGN_KEY "produto_id" "produto" "id" CASCADE;
      FOREIGN_KEY "variante_id" "produto_variante" "id" SET_NULL ];
  CREATE_INDEX_IF_NOT_EXISTS "idx_imagem_produto" "produto_imagem" ["produto_id"] ].

Definition cartao_presente : list stmt := [
  CREATE_TABLE_IF_NOT_EXISTS "cartao_presente" [
    id_autoincrement;
    Col "numero" TEXT [UNIQUE; NOT_NULL];
    Col "codigo_seguranca" TEXT [NOT_NULL];
    Col "valor_original" REAL [NOT_NULL];
    Col "saldo" REAL [NOT_NULL];
    Col "validade" TEXT [NOT_NULL];
    Col "status" TEXT [NOT_NULL; DEFAULT (VText "ativo")];
    Col "comprador_id" INTEGER [];
    criado_em ]
    [ FOREIGN_KEY "comprador_id" "cliente" "id" NO_ACTION ];
  CREATE_INDEX_IF_NOT_EXISTS "idx_cartao_numero" "cartao_presente" ["numero"];
  CREATE_INDEX_IF_NOT_EXISTS "idx_cartao_comprador" "cartao_presente" ["comprador_id"] ].

Definition carrinho_item : list stmt := [
  CREATE_TABLE_IF_NOT_EXISTS "carrinho_item" [
    id_autoincrement;
    Col "cliente_id" INTEGER [NOT_NULL];
    Col "produto_variante_id" INTEGER [NOT_NULL];
    Col "quantidade" INTEGER [NOT_NULL; DEFAULT (VInt 1)];
    criado_em;
    Col "atualizado_em" TEXT [] ]
    [ FOREIGN_KEY "cliente_id" "cliente" "id" CASCADE;
      FOREIGN_KEY "produto_variante_id" "produto_variante" "id" CASCADE;
      UNIQUE_OF ["cliente_id"; "produto_variante_id"] ];
  CREATE_INDEX_IF_NOT_EXISTS "idx_carrinho_item_cliente" "carrinho_item" ["cliente_id"] ].

Definition pedido : list stmt := [
  CREATE_TABLE_IF_NOT_EXISTS "pedido" [
    id_autoincrement;
    Col "cliente_id" INTEGER [NOT_NULL];
    Col "filial_origem_id" INTEGER [];
    Col "status_pedido" TEXT [NOT_NULL; DEFAULT (VText "novo")];
    Col "status_pagamento" TEXT [NOT_NULL; DEFAULT (VText "aguardando")];
    Col "pagamento_id_externo" TEXT [];
    Col "pagamento_status_detalhado" TEXT [];
    Col "pagamento_tipo" TEXT [];
    Col "pagamento_parcelas" INTEGER [];
    Col "subtotal" REAL [NOT_NULL];
    Col "desconto_total" REAL [DEFAULT (VInt 0)];
    Col "frete" REAL [DEFAULT (VInt 0)];
    Col "total" REAL [NOT_NULL];
    Col "cupom_id" INTEGER [];
    Col "endereco_entrega_id" INTEGER [];
    Col "codigo_rastreio" TEXT [];
    Col "link_acompanhamento" TEXT [];
    Col "data_prevista_entrega" TEXT [];
    Col "separado_por_usuario_id" INTEGER [];
    Col "observacoes" TEXT [];
    criado_em;
    Col "atualizado_em" TEXT [] ]
    [ FOREIGN_KEY "cliente_id" "cliente" "id" NO_ACTION;
      FOREIGN_KEY "filial_origem_id" "filial" "id" NO_ACTION;
      FOREIGN_KEY "cupom_id" "cupom" "id" NO_ACTION;
      FOREIGN_KEY "endereco_entrega_id" "cliente_endereco" "id" NO_ACTION ];
  CREATE_INDEX_IF_NOT_EXISTS "idx_pedido_cliente" "pedido" ["cliente_id"];
  CREATE_INDEX_IF_NOT_EXISTS "idx_pedido_status" "pedido" ["status_pedido"] ].

Definition pedido_item : list stmt := [
  CREATE_TABLE_IF_NOT_EXISTS "pedido_item" [
    id_autoincrement;
    Col "pedido_id" INTEGER [NOT_NULL];
    Col "produto_id" INTEGER [NOT_NULL];
    Col "produto_variante_id" INTEGER [];
    Col "quantidade" INTEGER [NOT_NULL];
    Col "preco_unit" REAL [NOT_NULL];
    Col "desconto_unit" REAL [DEFAULT (VInt 0)];
    Col "total_item" REAL [NOT_NULL];
    criado_em ]
    [ FOREIGN_KEY "pedido_id" "pedido" "id" CASCADE;
      FOREIGN_KEY "produto_id" "produto" "id" NO_ACTION;
      FOREIGN_KEY "produto_variante_id" "produto_variante" "id" NO_ACTION ];
  CREATE_INDEX_IF_NOT_EXISTS "idx_item_pedido" "pedido_item" ["pedido_id"] ].

Definition estoque_movimento : list stmt := [
  CREATE_TABLE_IF_NOT_EXISTS "estoque_movimento" [
    id_autoincrement;
    Col "variante_id" INTEGER [];
    Col "produto_variante_id" INTEGER [];
    Col "tipo" TEXT [NOT_NULL; CHECK_IN ["entrada"; "saida"; "ajuste"; "devolucao"]];
    Col "quantidade" INTEGER [NOT_NULL];
    Col "motivo" TEXT [];
    Col "referencia_tipo" TEXT [];
    Col "referencia_id" INTEGER [];
    Col "pedido_id" INTEGER [];
    Col "usuario_id" INTEGER [];
    criado_em ]
    [ FOREIGN_KEY "variante_id" "produto_variante" "id" NO_ACTION;
      FOREIGN_KEY "produto_variante_id" "produto_variante" "id" NO_ACTION;
      FOREIGN_KEY "pedido_id" "pedido" "id" NO_ACTION ];
  CREATE_INDEX_IF_NOT_EXISTS "idx_movimento_variante" "estoque_movimento" ["variante_id"];
  CREATE_INDEX_IF_NOT_EXISTS "idx_movimento_produto_variante" "estoque_movimento"
    ["produto_variante_id"];
  CREATE_INDEX_IF_NOT_EXISTS "idx_movimento_tipo" "estoque_movimento" ["tipo"] ].

Definition banner : list stmt := [
  CREATE_TABLE_IF_NOT_EXISTS "banner" [
    id_autoincrement;
    Col "titulo" TEXT [];
    Col "subtitulo" TEXT [];
    Col "caminho_imagem" TEXT [NOT_NULL];
    Col "link" TEXT [];
    Col "ordem" INTEGER [NOT_NULL; DEFAULT (VInt 0)];
    ativo;
    criado_em;
    Col "atualizado_em" TEXT [] ] [] ].

Definition carrossel : list stmt := [
  CREATE_TABLE_IF_NOT_EXISTS "carrossel" [
    id_autoincrement;
    Col "titulo" TEXT [];
    Col "descricao" TEXT [];
    Col "imagem_caminho" TEXT [NOT_NULL];
    Col "produto_id" INTEGER [];
    Col "link" TEXT [];
    Col "ordem" INTEGER [NOT_NULL; DEFAULT (VInt 0)];
    ativo;
    criado_em;
    Col "atualizado_em" TEXT [] ]
    [ FOREIGN_KEY "produto_id" "produto" "id" SET_NULL ];
  CREATE_INDEX_IF_NOT_EXISTS "idx_carrossel_ordem" "carrossel" ["ordem"];
  CREATE_INDEX_IF_NOT_EXISTS "idx_carrossel_ativo" "carrossel" ["ativo"];
  CREATE_INDEX_IF_NOT_EXISTS "idx_carrossel_produto" "carrossel" ["produto_id"] ].

Definition cupom : list stmt := [
  CREATE_TABLE_IF_NOT_EXISTS "cupom" [
    id_autoincrement;
    Col "codigo" TEXT [UNIQUE; NOT_NULL];
    Col "percentual" REAL [];
    Col "valor_fixo" REAL [];
    Col "quantidade_total" INTEGER [NOT_NULL; DEFAULT (VInt 0)];
    Col "quantidade_usada" INTEGER [NOT_NULL; DEFAULT (VInt 0)];
    Col "data_inicio" TEXT [];
    Col "data_fim" TEXT [];
    ativo;
    criado_em ] [];
  CREATE_INDEX_IF_NOT_EXISTS "idx_cupom_codigo" "cupom" ["codigo"] ].

Definition cupom_uso : list stmt := [
  CREATE_TABLE_IF_NOT_EXISTS "cupom_uso" [
    id_autoincrement;
    Col "cupom_id" INTEGER [NOT_NULL];
    Col "pedido_id" INTEGER [NOT_NULL];
    Col "cliente_id" INTEGER [NOT_NULL];
    Col "valor_desconto" REAL [NOT_NULL];
    criado_em ]
    [ FOREIGN_KEY "cupom_id" "cupom" "id" NO_ACTION;
      FOREIGN_KEY "pedido_id" "pedido" "id" NO_ACTION;
      FOREIGN_KEY "cliente_id" "cliente" "id" NO_ACTION ];
  CREATE_INDEX_IF_NOT_EXISTS "idx_cupom_uso_cupom" "cupom_uso" ["cupom_id"];
  CREATE_INDEX_IF_NOT_EXISTS "idx_cupom_uso_pedido" "cupom_uso" ["pedido_id"] ].

Definition notificacao : list stmt := [
  CREATE_TABLE_IF_NOT_EXISTS "notificacao" [
    id_autoincrement;
    Col "cliente_id" INTEGER [];
    Col "tipo" TEXT [DEFAULT (VText "geral")];
    Col "titulo" TEXT [NOT_NULL];
    Col "mensagem" TEXT [NOT_NULL];
    Col "link" TEXT [];
    Col "lida" INTEGER [NOT_NULL; DEFAULT (VInt 0)];
    criado_em ]
    [ FOREIGN_KEY "cliente_id" "cliente" "id" CASCADE ];
  CREATE_INDEX_IF_NOT_EXISTS "idx_notificacao_cliente" "notificacao" ["cliente_id"];
  CREATE_INDEX_IF_NOT_EXISTS "idx_notificacao_lida" "notificacao" ["lida"] ].

Definition cancelamento_devolucao : list stmt := [
  CREATE_TABLE_IF_NOT_EXISTS "cancelamento_devolucao" [
    id_autoincrement;
    Col "pedido_id" INTEGER [NOT_NULL];
    Col "tipo" TEXT [NOT_NULL; CHECK_IN ["cancelamento"; "devolucao"; "troca"]];
    Col "motivo" TEXT [];
    Col "status_reembolso" TEXT [DEFAULT (VText "pendente")];
    Col "valor_reembolso" REAL [];
    Col "processado_por_usuario_id" INTEGER [];
    criado_em;
    Col "atualizado_em" TEXT [] ]
    [ FOREIGN_KEY "pedido_id" "pedido" "id" NO_ACTION ];
  CREATE_INDEX_IF_NOT_EXISTS "idx_cancelamento_pedido" "cancelamento_devolucao" ["pedido_id"];
  CREATE_INDEX_IF_NOT_EXISTS "idx_cancelamento_status" "cancelamento_devolucao"
    ["status_reembolso"] ].

Definition reclamacao : list stmt := [
  CREATE_TABLE_IF_NOT_EXISTS "reclamacao" [
    id_autoincrement;
    Col "cliente_id" INTEGER [NOT_NULL];
    Col "pedido_id" INTEGER [];
    Col "descricao" TEXT [NOT_NULL];
    Col "status" TEXT [NOT_NULL; DEFAULT (VText "aberta")];
    Col "resposta" TEXT [];
    criado_em;
    Col "atualizado_em" TEXT [] ]
    [ FOREIGN_KEY "cliente_id" "cliente" "id" NO_ACTION;
      FOREIGN_KEY "pedido_id" "pedido" "id" NO_ACTION ];
  CREATE_INDEX_IF_NOT_EXISTS "idx_reclamacao_cliente" "reclamacao" ["cliente_id"];
  CREATE_INDEX_IF_NOT_EXISTS "idx_reclamacao_status" "reclamacao" ["status"] ].

Definition reclamacao_midia : list stmt := [
  CREATE_TABLE_IF_NOT_EXISTS "reclamacao_midia" [
    id_autoincrement;
    Col "reclamacao_id" INTEGER [NOT_NULL];
    Col "tipo" TEXT [NOT_NULL];
    Col "caminho" TEXT [NOT_NULL];
    Col "mime" TEXT [];
    Col "size_bytes" INTEGER [];
    criado_em ]
    [ FOREIGN_KEY "reclamacao_id" "reclamacao" "id" CASCADE ];
  CREATE_INDEX_IF_NOT_EXISTS "idx_midia_reclamacao" "reclamacao_midia" ["reclamacao_id"] ].

Definition tema : list stmt := [
  CREATE_TABLE_IF_NOT_EXISTS "tema" [
    Col "id" INTEGER [PRIMARY_KEY; CHECK_EQ 1];
    Col "cor_primaria" TEXT [NOT_NULL; DEFAULT (VText "#4a86e8")];
    Col "cor_secundaria" TEXT [NOT_NULL; DEFAULT (VText "#357abd")];
    Col "cor_destaque" TEXT [];
    Col "logo_path" TEXT [];
    Col "favicon_path" TEXT [];
    Col "atualizado_em" TEXT [NOT_NULL; DEFAULT_NOW] ] [];
  INSERT_OR_IGNORE "tema" ["id"; "cor_primaria"; "cor_secundaria"]
    [VInt 1; VText "#4a86e8"; VText "#357abd"] ].

Definition caixa_sessao : list stmt := [
  CREATE_TABLE_IF_NOT_EXISTS "caixa_sessao" [
    id_autoincrement;
    Col "filial_id" INTEGER [NOT_NULL];
    Col "usuario_abertura_id" INTEGER [];
    Col "usuario_fechamento_id" INTEGER [];
    Col "valor_abertura" REAL [NOT_NULL; DEFAULT (VInt 0)];
    Col "valor_fechamento_declarado" REAL [];
    Col "total_entradas" REAL [];
    Col "total_saidas" REAL [];
    Col "saldo_calculado" REAL [];
    Col "diferenca" REAL [];
    Col "status" TEXT [NOT_NULL; DEFAULT (VText "aberto");
      CHECK_IN ["aberto"; "pendente_aprovacao"; "aprovado"; "fechado"]];
    Col "aberto_em" TEXT [NOT_NULL; DEFAULT_NOW];
    Col "fechado_em" TEXT [];
    Col "observacoes_abertura" TEXT [];
    Col "observacoes_fechamento" TEXT [];
    Col "usuario_aprovacao_id" INTEGER [];
    Col "aprovado_em" TEXT [];
    Col "observacoes_aprovacao" TEXT [] ]
    [ FOREIGN_KEY "filial_id" "filial" "id" NO_ACTION ];
  CREATE_INDEX_IF_NOT_EXISTS "idx_caixa_sessao_filial" "caixa_sessao" ["filial_id"];
  CREATE_INDEX_IF_NOT_EXISTS "idx_caixa_sessao_status" "caixa_sessao" ["status"] ].

Definition caixa_lancamento : list stmt := [
  CREATE_TABLE_IF_NOT_EXISTS "caixa_lancamento" [
    id_autoincrement;
    Col "sessao_id" INTEGER [];
    Col "filial_id" INTEGER [];
    Col "pedido_id" INTEGER [];
    Col "produto_variante_id" INTEGER [];
    Col "tipo" TEXT [NOT_NULL; CHECK_IN ["entrada"; "saida"]];
    Col "categoria" TEXT [];
    Col "descricao" TEXT [NOT_NULL];
    Col "valor" REAL [NOT_NULL];
    Col "forma_pagamento" TEXT [];
    Col "parcelas" INTEGER [];
    Col "cliente_id" INTEGER [];
    Col "usuario_vendedor_id" INTEGER [];
    Col "origem" TEXT [];
    criado_em ]
    [ FOREIGN_KEY "sessao_id" "caixa_sessao" "id" CASCADE;
      FOREIGN_KEY "filial_id" "filial" "id" NO_ACTION;
      FOREIGN_KEY "pedido_id" "pedido" "id" NO_ACTION;
      FOREIGN_KEY "produto_variante_id" "produto_variante" "id" NO_ACTION;
      FOREIGN_KEY "cliente_id" "cliente" "id" NO_ACTION ];
  CREATE_INDEX_IF_NOT_EXISTS "idx_lancamento_sessao" "caixa_lancamento" ["sessao_id"];
  CREATE_INDEX_IF_NOT_EXISTS "idx_lancamento_filial" "caixa_lancamento" ["filial_id"];
  CREATE_INDEX_IF_NOT_EXISTS "idx_lancamento_tipo" "caixa_lancamento" ["tipo"] ].

Definition financeiro_conta_pagar : list stmt := [
  CREATE_TABLE_IF_NOT_EXISTS "financeiro_conta_pagar" [
    id_autoincrement;
    Col "filial_id" INTEGER [];
    Col "fornecedor_id" INTEGER [];
    Col "descricao" TEXT [NOT_NULL];
    Col "valor" REAL [NOT_NULL];
    Col "data_vencimento" TEXT [NOT_NULL];
    Col "data_pagamento" TEXT [];
    Col "valor_pago" REAL [];
    Col "status" TEXT [NOT_NULL; DEFAULT (VText "pendente");
      CHECK_IN ["pendente"; "pago"; "atrasado"; "cancelado"]];
    Col "forma_pagamento" TEXT [];
    Col "numero_documento" TEXT [];
    Col "observacoes" TEXT [];
    Col "criado_por_usuario_id" INTEGER [];
    Col "pago_por_usuario_id" INTEGER [];
    criado_em;
    Col "atualizado_em" TEXT [] ]
    [ FOREIGN_KEY "filial_id" "filial" "id" NO_ACTION;
      FOREIGN_KEY "fornecedor_id" "fornecedor" "id" NO_ACTION ];
  CREATE_INDEX_IF_NOT_EXISTS "idx_fin_conta_pagar_status" "financeiro_conta_pagar" ["status"];
  CREATE_INDEX_IF_NOT_EXISTS "idx_fin_conta_pagar_vencimento" "financeiro_conta_pagar"
    ["data_vencimento"];
  CREATE_INDEX_IF_NOT_EXISTS "idx_fin_conta_pagar_filial" "financeiro_conta_pagar"
    ["filial_id"] ].

Definition financeiro_conta_receber : list stmt := [
  CREATE_TABLE_IF_NOT_EXISTS "financeiro_conta_receber" [
    id_autoincrement;
    Col "filial_id" INTEGER [];
    Col "cliente_id" INTEGER [];
    Col "descricao" TEXT [NOT_NULL];
    Col "valor" REAL [NOT_NULL];
    Col "data_vencimento" TEXT [NOT_NULL];
    Col "data_recebimento" TEXT [];
    Col "valor_recebido" REAL [];
    Col "status" TEXT [NOT_NULL; DEFAULT (VText "pendente");
      CHECK_IN ["pendente"; "recebido"; "atrasado"; "cancelado"]];
    Col "forma_pagamento" TEXT [];
    Col "numero_documento" TEXT [];
    Col "observacoes" TEXT [];
    Col "criado_por_usuario_id" INTEGER [];
    Col "recebido_por_usuario_id" INTEGER [];
    criado_em;
    Col "atualizado_em" TEXT [] ]
    [ FOREIGN_KEY "filial_id" "filial" "id" NO_ACTION;
      FOREIGN_KEY "cliente_id" "cliente" "id" NO_ACTION ];
  CREATE_INDEX_IF_NOT_EXISTS "idx_fin_conta_receber_status" "financeiro_conta_receber"
    ["status"];
  CREATE_INDEX_IF_NOT_EXISTS "idx_fin_conta_receber_vencimento" "financeiro_conta_receber"
    ["data_vencimento"];
  CREATE_INDEX_IF_NOT_EXISTS "idx_fin_conta_receber_filial" "financeiro_conta_receber"
    ["filial_id"] ].

Definition financeiro_fechamento : list stmt := [
  CREATE_TABLE_IF_NOT_EXISTS "financeiro_fechamento" [
    id_autoincrement;
    Col "data_inicio" TEXT [NOT_NULL];
    Col "data_fim" TEXT [NOT_NULL];
    Col "filiais_json" TEXT [];
    Col "total_receitas" REAL [NOT_NULL; DEFAULT (VInt 0)];
    Col "total_despesas" REAL [NOT_NULL; DEFAULT (VInt 0)];
    Col "resultado" REAL [NOT_NULL; DEFAULT (VInt 0)];
    Col "resumo_json" TEXT [];
    Col "status" TEXT [NOT_NULL; DEFAULT (VText "gerado");
      CHECK_IN ["gerado"; "aprovado"; "cancelado"]];
    Col "observacoes" TEXT [];
    Col "criado_por_usuario_id" INTEGER [];
    criado_em ] [];
  CREATE_INDEX_IF_NOT_EXISTS "idx_fechamento_periodo" "financeiro_fechamento"
    ["data_inicio"; "data_fim"];
  CREATE_INDEX_IF_NOT_EXISTS "idx_fechamento_status" "financeiro_fechamento" ["status"] ].

(** The default branch, inserted if it does not exist. *)
Definition filial_padrao : list stmt := [
  INSERT_OR_IGNORE "filial" ["nome"; "tipo"] [VText "Principal"; VText "loja"] ].

(** The [db.exec] calls of [ensureCoreTables], first to last. *)
Definition calls : list (list stmt) := [
  filial; cliente; cliente_endereco; fornecedor; categoria; produto;
  produto_variante; produto_imagem; cartao_presente; carrinho_item; pedido;
  pedido_item; estoque_movimento; banner; carrossel; cupom; cupom_uso;
  notificacao; cancelamento_devolucao; reclamacao; reclamacao_midia; tema;
  caixa_sessao; caixa_lancamento; financeiro_conta_pagar;
  financeiro_conta_receber; financeiro_fechamento; filial_padrao ].

End CoreDdl.

(** ** The statements of [ensureAuthTables] *)
Module AuthDdl.

Import CoreDdl (id_autoincrement, criado_em, ativo).

Definition grupo_acesso : list stmt := [
  CREATE_TABLE_IF_NOT_EXISTS "grupo_acesso" [
    id_autoincrement;
    Col "nome" TEXT [UNIQUE; NOT_NULL];
    Col "descricao" TEXT [];
    criado_em ] [] ].

Definition permissao : list stmt := [
  CREATE_TABLE_IF_NOT_EXISTS "permissao" [
    id_autoincrement;
    Col "codigo" TEXT [UNIQUE; NOT_NULL];
    Col "nome" TEXT [NOT_NULL];
    Col "modulo" TEXT [NOT_NULL];
    criado_em ] [] ].

Definition grupo_permissao : list stmt := [
  CREATE_TABLE_IF_NOT_EXISTS "grupo_permissao" [
    Col "grupo_id" INTEGER [NOT_NULL];
    Col "permissao_id" INTEGER [NOT_NULL] ]
    [ PRIMARY_KEY_OF ["grupo_id"; "permissao_id"];
      FOREIGN_KEY "grupo_id" "grupo_acesso" "id" CASCADE;
      FOREIGN_KEY "permissao_id" "permissao" "id" CASCADE ] ].

Definition usuario_sistema : list stmt := [
  CREATE_TABLE_IF_NOT_EXISTS "usuario_sistema" [
    id_autoincrement;
    Col "nome_completo" TEXT [NOT_NULL];
    Col "login" TEXT [UNIQUE; NOT_NULL];
    Col "senha_hash" TEXT [NOT_NULL];
    Col "email" TEXT [];
    Col "telefone" TEXT [];
    Col "filial_id" INTEGER [];
    Col "grupo_acesso_id" INTEGER [];
    ativo;
    Col "ultimo_login" TEXT [];
    criado_em;
    Col "atualizado_em" TEXT [] ]
    [ FOREIGN_KEY "grupo_acesso_id" "grupo_acesso" "id" NO_ACTION ];
  CREATE_INDEX_IF_NOT_EXISTS "idx_usuario_login" "usuario_sistema" ["login"];
  CREATE_INDEX_IF_NOT_EXISTS "idx_usuario_email" "usuario_sistema" ["email"] ].

(** "TABELA CRITICA" in the source: the table of authorised origins. *)
Definition urls_autorizadas : list stmt := [
  CREATE_TABLE_IF_NOT_EXISTS "urls_autorizadas" [
    id_autoincrement;
    Col "url" TEXT [UNIQUE; NOT_NULL];
    Col "descricao" TEXT [];
    criado_em ] [] ].

Definition recuperacao_senha : list stmt := [
  CREATE_TABLE_IF_NOT_EXISTS "recuperacao_senha" [
    id_autoincrement;
    Col "cliente_id" INTEGER [NOT_NULL];
    Col "codigo_hash" TEXT [NOT_NULL];
    Col "expira_em" TEXT [NOT_NULL];
    Col "usado_em" TEXT [];
    criado_em ] [];
  CREATE_INDEX_IF_NOT_EXISTS "idx_recuperacao_cliente" "recuperacao_senha" ["cliente_id"];
  CREATE_INDEX_IF_NOT_EXISTS "idx_recuperacao_codigo" "recuperacao_senha" ["codigo_hash"];
  CREATE_INDEX_IF_NOT_EXISTS "idx_recuperacao_expira" "recuperacao_senha" ["expira_em"] ].

Definition recuperacao_senha_usuario : list stmt := [
  CREATE_TABLE_IF_NOT_EXISTS "recuperacao_senha_usuario" [
    id_autoincrement;
    Col "usuario_id" INTEGER [NOT_NULL];
    Col "codigo_hash" TEXT [NOT_NULL];
    Col "expira_em" TEXT [NOT_NULL];
    Col "usado_em" TEXT [];
    criado_em ]
    [ FOREIGN_KEY "usuario_id" "usuario_sistema" "id" CASCADE ];
  CREATE_INDEX_IF_NOT_EXISTS "idx_recuperacao_usuario" "recuperacao_senha_usuario"
    ["usuario_id"];
  CREATE_INDEX_IF_NOT_EXISTS "idx_recuperacao_usuario_codigo" "recuperacao_senha_usuario"
    ["codigo_hash"];
  CREATE_INDEX_IF_NOT_EXISTS "idx_recuperacao_usuario_expira" "recuperacao_senha_usuario"
    ["expira_em"] ].

Definition api_token : list stmt := [
  CREATE_TABLE_IF_NOT_EXISTS "api_token" [
    id_autoincrement;
    Col "token" TEXT [UNIQUE; NOT_NULL];
    Col "url_origem" TEXT [NOT_NULL];
    ativo;
    Col "ultimo_uso" TEXT [];
    criado_em;
    Col "expira_em" TEXT [] ] [];
  CREATE_INDEX_IF_NOT_EXISTS "idx_token" "api_token" ["token"] ].

Definition integracao_token : list stmt := [
  CREATE_TABLE_IF_NOT_EXISTS "integracao_token" [
    id_autoincrement;
    Col "token_hash" TEXT [NOT_NULL];
    Col "expira_em" TEXT [NOT_NULL];
    Col "revogado" INTEGER [NOT_NULL; DEFAULT (VInt 0)];
    criado_em ] [];
  CREATE_INDEX_IF_NOT_EXISTS "idx_integracao_token_hash" "integracao_token" ["token_hash"];
  CREATE_INDEX_IF_NOT_EXISTS "idx_integracao_token_expira" "integracao_token" ["expira_em"] ].

Definition webhook_config : list stmt := [
  CREATE_TABLE_IF_NOT_EXISTS "webhook_config" [
    Col "id" INTEGER [PRIMARY_KEY; CHECK_EQ 1];
    Col "url" TEXT [NOT_NULL];
    Col "secret" TEXT [];
    ativo;
    criado_em;
    Col "atualizado_em" TEXT [] ] [] ].

Definition webhook_log : list stmt := [
  CREATE_TABLE_IF_NOT_EXISTS "webhook_log" [
    id_autoincrement;
    Col "event_type" TEXT [NOT_NULL];
    Col "status" TEXT [NOT_NULL];
    Col "erro" TEXT [];
    criado_em ] [];
  CREATE_INDEX_IF_NOT_EXISTS "idx_webhook_log_event" "webhook_log" ["event_type"];
  CREATE_INDEX_IF_NOT_EXISTS "idx_webhook_log_status" "webhook_log" ["status"];
  CREATE_INDEX_IF_NOT_EXISTS "idx_webhook_log_data" "webhook_log" ["criado_em"] ].

Definition dispositivo_autenticacao : list stmt := [
  CREATE_TABLE_IF_NOT_EXISTS "dispositivo_autenticacao" [
    id_autoincrement;
    Col "dispositivo_id" TEXT [NOT_NULL];
    Col "usuario_id" INTEGER [NOT_NULL];
    Col "ip" TEXT [];
    Col "user_agent" TEXT [];
    Col "status" TEXT [NOT_NULL; DEFAULT (VText "pendente");
      CHECK_IN ["pendente"; "aprovado"; "rejeitado"; "revogado"]];
    Col "token_hash" TEXT [];
    Col "aprovado_por" TEXT [];
    Col "aprovado_em" TEXT [];
    Col "ultimo_uso" TEXT [];
    criado_em ]
    [ FOREIGN_KEY "usuario_id" "usuario_sistema" "id" NO_ACTION ];
  CREATE_INDEX_IF_NOT_EXISTS "idx_dispositivo_id" "dispositivo_autenticacao"
    ["dispositivo_id"];
  CREATE_INDEX_IF_NOT_EXISTS "idx_dispositivo_usuario" "dispositivo_autenticacao"
    ["usuario_id"];
  CREATE_INDEX_IF_NOT_EXISTS "idx_dispositivo_status" "dispositivo_autenticacao" ["status"];
  CREATE_INDEX_IF_NOT_EXISTS "idx_dispositivo_token" "dispositivo_autenticacao"
    ["token_hash"] ].

Definition push_subscription : list stmt := [
  CREATE_TABLE_IF_NOT_EXISTS "push_subscription" [
    id_autoincrement;
    Col "endpoint" TEXT [UNIQUE; NOT_NULL];
    Col "expirationTime" TEXT [];
    Col "p256dh" TEXT [];
    Col "auth" TEXT [];
    criado_em ] [];
  CREATE_INDEX_IF_NOT_EXISTS "idx_push_endpoint" "push_subscription" ["endpoint"] ].

(** The default Admin group, inserted if it does not exist. *)
Definition grupo_admin : list stmt := [
  INSERT_OR_IGNORE "grupo_acesso" ["nome"; "descricao"]
    [VText "Admin"; VText "Administrador total do sistema"] ].

(** The [db.exec] calls of [ensureAuthTables], first to last. *)
Definition calls : list (list stmt) := [
  grupo_acesso; permissao; grupo_permissao; usuario_sistema; urls_autorizadas;
  recuperacao_senha; recuperacao_senha_usuario; api_token; integracao_token;
  webhook_config; webhook_log; dispositivo_autenticacao; push_subscription;
  grupo_admin ].

(** [SELECT id FROM usuario_sistema WHERE login = 'admin'] *)
Definition existe_admin : query :=
  SELECT_FROM_WHERE "id" "usuario_sistema" "login" (VText "admin").

(** The columns of the prepared [INSERT OR IGNORE INTO usuario_sistema]. *)
Definition admin_cols : list string :=
  ["nome_completo"; "login"; "senha_hash"; "email"; "filial_id"; "grupo_acesso_id"].

End AuthDdl.

(** ** The statements of [ensureAuditTables] *)
Module AuditDdl.

Import CoreDdl (id_autoincrement, criado_em).

Definition audit_log : list stmt := [
  CREATE_TABLE_IF_NOT_EXISTS "audit_log" [
    id_autoincrement;
    Col "entidade" TEXT [NOT_NULL];
    Col "entidade_id" INTEGER [NOT_NULL];
    Col "acao" TEXT [NOT_NULL;
      CHECK_IN ["create"; "update"; "delete"; "login"; "logout"; "status_change"]];
    Col "antes_json" TEXT [];
    Col "depois_json" TEXT [];
    Col "usuario_id" INTEGER [];
    Col "usuario_tipo" TEXT [];
    Col "ip" TEXT [];
    Col "user_agent" TEXT [];
    criado_em ] [];
  CREATE_INDEX_IF_NOT_EXISTS "idx_audit_entidade" "audit_log" ["entidade"; "entidade_id"];
  CREATE_INDEX_IF_NOT_EXISTS "idx_audit_usuario" "audit_log" ["usuario_id"; "usuario_tipo"];
  CREATE_INDEX_IF_NOT_EXISTS "idx_audit_data" "audit_log" ["criado_em"] ].

Definition calls : list (list stmt) := [ audit_log ].

End AuditDdl.

(** ** What a call does: it returns a value or throws *)
Inductive outcome (A : Type) :=
| Returns (a : A)
| Throws (e : js_error).
Arguments Returns {A} a.
Arguments Throws {A} e.

(** ** The storage engine

    Modelled from the spec: the [Database] class of [./sqlite-compat] and the
    SQLite engine behind it are not under src/. Section 4.3 gives the
    contract the statements rely on: tables and indexes are created with
    create-if-absent semantics, default rows are inserted with
    insert-if-absent semantics; the columns, keys and defaults that decide
    "absent" are those the statements of the source declare. *)
Module Engine.

Record table := Table {
  t_columns : list column;
  t_constraints : list table_constraint;
  t_rows : list (list value);
  t_seq : Z   (* largest row id ever handed out by AUTOINCREMENT *)
}.

Record database := Database {
  db_tables : gmap string table;
  db_indexes : gmap string (string * list string)
}.

Definition empty_database : database := Database ∅ ∅.

Definition has (k : col_constraint) (c : column) : bool :=
  bool_decide (k ∈ c_constraints c).

(** An INTEGER PRIMARY KEY column is the row id. *)
Definition is_rowid (c : column) : bool :=
  bool_decide (c_type c = INTEGER) && (has PRIMARY_KEY c || has PRIMARY_KEY_AUTOINCREMENT c).

Definition is_unique (c : column) : bool :=
  has UNIQUE c || has PRIMARY_KEY c || has PRIMARY_KEY_AUTOINCREMENT c.

Definition col_index (cols : list column) (name : string) : option nat :=
  fst <$> list_find (λ c, c_name c = name) cols.

Definition rowids (t : table) : list Z :=
  match fst <$> list_find (λ c, is_rowid c = true) (t_columns t) with
  | None => []
  | Some i => omap (λ r, match r !! i with Some (VInt z) => Some z | _ => None end) (t_rows t)
  end.

Definition next_rowid (t : table) : Z :=
  1 + foldr Z.max (t_seq t) (rowids t).

Fixpoint default_of (now : nat) (cs : list col_constraint) : value :=
  match cs with
  | [] => VNull
  | DEFAULT v :: _ => v
  | DEFAULT_NOW :: _ => VDatetime now
  | _ :: cs => default_of now cs
  end.

Definition supplied (cols : list string) (vals : list value) (name : string) : option value :=
  match fst <$> list_find (λ c, c = name) cols with
  | None => None
  | Some i => vals !! i
  end.

(** The value a new row gets in column [c]. *)
Definition cell (now : nat) (t : table) (cols : list string) (vals : list value)
    (c : column) : value :=
  let v := default (default_of now (c_constraints c)) (supplied cols vals (c_name c)) in
  if is_rowid c && bool_decide (v = VNull) then VInt (next_rowid t) else v.

Definition new_row (now : nat) (t : table) (cols : list string) (vals : list value)
    : list value :=
  cell now t cols vals <$> t_columns t.

(** Constraints that OR IGNORE resolves by skipping the row. *)
Definition check_ok (v : value) (k : col_constraint) : bool :=
  match k with
  | NOT_NULL => negb (bool_decide (v = VNull))
  | CHECK_IN allowed =>
      match v with
      | VNull => true
      | VText s => bool_decide (s ∈ allowed)
      | _ => false
      end
  | CHECK_EQ z =>
      match v with
      | VNull => true
      | VInt z' => bool_decide (z' = z)
      | _ => false
      end
  | _ => true
  end.

Definition taken (rows : list (list value)) (i : nat) (v : value) : bool :=
  negb (bool_decide (v = VNull)) && bool_decide (Exists (λ r, r !! i = Some v) rows).

Definition column_ok (rows : list (list value)) (r : list value) (ic : nat * column) : bool :=
  let v := default VNull (r !! ic.1) in
  forallb (check_ok v) (c_constraints ic.2)
  && negb (is_unique ic.2 && taken rows ic.1 v).

Definition key_of (t : table) (names : list string) (r : list value) : list (option value) :=
  (λ n, i ← col_index (t_columns t) n; r !! i) <$> names.

Definition key_ok (t : table) (r : list value) (k : table_constraint) : bool :=
  match k with
  | UNIQUE_OF names | PRIMARY_KEY_OF names =>
      let key := key_of t names r in
      bool_decide (Exists (λ v, v = None ∨ v = Some VNull) key)
      || negb (bool_decide (Exists (λ r', key_of t names r' = key) (t_rows t)))
  | FOREIGN_KEY _ _ _ _ => true
  end.

Definition no_conflict (t : table) (r : list value) : bool :=
  forallb (column_ok (t_rows t) r) (imap pair (t_columns t))
  && forallb (key_ok t r) (t_constraints t).

(** Foreign keys are enforced when the connection has them switched on; a
    violation is an error that OR IGNORE does not resolve. *)
Definition fk_error (db : database) (t : table) (r : list value) (k : table_constraint)
    : option js_error :=
  match k with
  | FOREIGN_KEY col parent pcol _ =>
      match col_index (t_columns t) col ≫= (r !!.) with
      | None | Some VNull => None
      | Some v =>
          match db_tables db !! parent with
          | None => Some (Error ("no such table: main." ++ parent))
          | Some pt =>
              match col_index (t_columns pt) pcol with
              | None => Some (Error "foreign key mismatch")
              | Some j =>
                  if bool_decide (Exists (λ r', r' !! j = Some v) (t_rows pt))
                  then None
                  else Some (Error "FOREIGN KEY constraint failed")
              end
          end
      end
  | _ => None
  end.

Definition first_error (es : list (option js_error)) : option js_error :=
  list_find is_Some es ≫= snd.

Definition insert_or_ignore (fk_on : bool) (now : nat) (name : string)
    (cols : list string) (vals : list value) (db : database) : outcome database :=
  match db_tables db !! name with
  | None => Throws (Error ("no such table: " ++ name))
  | Some t =>
      match list_find (λ c, col_index (t_columns t) c = None) cols with
      | Some (_, c) => Throws (Error ("table " ++ name ++ " has no column named " ++ c))
      | None =>
          if negb (bool_decide (length cols = length vals))
          then Throws (Error "values do not match the columns")
          else
            let r := new_row now t cols vals in
            if negb (no_conflict t r) then Returns db
            else
              match (if fk_on then first_error (fk_error db t r <$> t_constraints t)
                     else None) with
              | Some e => Throws e
              | None =>
                  let seq :=
                    if bool_decide (Exists (λ c, has PRIMARY_KEY_AUTOINCREMENT c = true)
                                      (t_columns t))
                    then foldr Z.max (t_seq t) (rowids (Table (t_columns t) (t_constraints t) [r] 0))
                    else t_seq t in
                  Returns (Database
                    (<[name := Table (t_columns t) (t_constraints t) (t_rows t ++ [r]) seq]>
                       (db_tables db))
                    (db_indexes db))
              end
      end
  end.

Definition exec_stmt (fk_on : bool) (now : nat) (s : stmt) (db : database)
    : outcome database :=
  match s with
  | CREATE_TABLE_IF_NOT_EXISTS name cols tcs =>
      match db_tables db !! name with
      | Some _ => Returns db
      | None => Returns (Database (<[name := Table cols tcs [] 0]> (db_tables db))
                           (db_indexes db))
      end
  | CREATE_INDEX_IF_NOT_EXISTS name tname cols =>
      match db_indexes db !! name with
      | Some _ => Returns db
      | None =>
          match db_tables db !! tname with
          | None => Throws (Error ("no such table: main." ++ tname))
          | Some t =>
              match list_find (λ c, col_index (t_columns t) c = None) cols with
              | Some (_, c) => Throws (Error ("no such column: " ++ c))
              | None => Returns (Database (db_tables db)
                                   (<[name := (tname, cols)]> (db_indexes db)))
              end
          end
      end
  | INSERT_OR_IGNORE name cols vals => insert_or_ignore fk_on now name cols vals db
  end.

(** Compiling a statement checks the names it mentions. *)
Definition names_error (name : string) (cols : list string) (db : database)
    : option js_error :=
  match db_tables db !! name with
  | None => Some (Error ("no such table: " ++ name))
  | Some t =>
      match list_find (λ c, col_index (t_columns t) c = None) cols with
      | Some (_, c) => Some (Error ("no such column: " ++ c))
      | None => None
      end
  end.

(** [.get()]: the first row that matches, projected, or [undefined]. *)
Definition select_get (q : query) (db : database) : option value :=
  t ← db_tables db !! q_table q;
  i ← col_index (t_columns t) (q_col q);
  j ← col_index (t_columns t) (q_wcol q);
  r ← snd <$> list_find (λ r, r !! j = Some (q_val q)) (t_rows t);
  r !! i.

(** The rows of table [name] whose column [col] holds [v]. *)
Definition rows_where (db : database) (name col : string) (v : value)
    : list (list value) :=
  match db_tables db !! name with
  | None => []
  | Some t =>
      match col_index (t_columns t) col with
      | None => []
      | Some j => filter (λ r, r !! j = Some v) (t_rows t)
      end
  end.

(** The value of column [col] in row [r] of table [name]. *)
Definition field (db : database) (name col : string) (r : list value) : option value :=
  t ← db_tables db !! name;
  i ← col_index (t_columns t) col;
  r !! i.

End Engine.
Import Engine.

(** ** The world of the module

    The three variables of database.js, what the logger has received, and
    the storage engine: the connections it has handed out, the database
    files on disk, its clock, and the failures still to come. *)
Abbreviation handle := nat (only parsing).

Record connection := Connection {
  conn_path : string;
  conn_verbose : bool;
  conn_open : bool;
  conn_pragmas : list string;
  conn_txn : bool
}.

Inductive level := INFO | WARN | ERROR.

Inductive log_arg :=
| ArgText (s : string)
| ArgError (e : js_error).

Record log_entry := Log {
  lg_level : level;
  lg_message : string;
  lg_args : list log_arg
}.

#[global] Instance level_eq_dec : EqDecision level.
Proof. solve_decision. Defined.
#[global] Instance log_arg_eq_dec : EqDecision log_arg.
Proof. solve_decision. Defined.
#[global] Instance log_entry_eq_dec : EqDecision log_entry.
Proof. solve_decision. Defined.

Record world := World {
  coreDb : option handle;
  authDb : option handle;
  auditDb : option handle;
  logged : list log_entry;
  conns : list connection;
  files : gmap string database;
  clock : nat;
  (* one entry per engine operation to come: [Some e] makes it throw [e];
     past the end of the list nothing fails *)
  faults : list (option js_error)
}.

(** A computation of the module: it runs in a world, returns or throws, and
    leaves a world. What was done before a throw stays done. *)
Definition M (A : Type) : Type := world → outcome A * world.

#[global] Instance M_ret : MRet M := λ A a w, (Returns a, w).
#[global] Instance M_bind : MBind M := λ A B f m w,
  match m w with
  | (Returns a, w') => f a w'
  | (Throws e, w') => (Throws e, w')
  end.

Definition throw {A} (e : js_error) : M A := λ w, (Throws e, w).

(** [try { body } catch (e) { handler }] *)
Definition try_catch {A} (body : M A) (handler : js_error → M A) : M A := λ w,
  match body w with
  | (Returns a, w') => (Returns a, w')
  | (Throws e, w') => handler e w'
  end.

Definition read {A} (f : world → A) : M A := λ w, (Returns (f w), w).
Definition modify (f : world → world) : M unit := λ w, (Returns tt, f w).

Definition set_coreDb (v : option handle) (w : world) : world :=
  World v (authDb w) (auditDb w) (logged w) (conns w) (files w) (clock w) (faults w).
Definition set_authDb (v : option handle) (w : world) : world :=
  World (coreDb w) v (auditDb w) (logged w) (conns w) (files w) (clock w) (faults w).
Definition set_auditDb (v : option handle) (w : world) : world :=
  World (coreDb w) (authDb w) v (logged w) (conns w) (files w) (clock w) (faults w).
Definition set_logged (l : list log_entry) (w : world) : world :=
  World (coreDb w) (authDb w) (auditDb w) l (conns w) (files w) (clock w) (faults w).
Definition set_conns (cs : list connection) (w : world) : world :=
  World (coreDb w) (authDb w) (auditDb w) (logged w) cs (files w) (clock w) (faults w).
Definition set_files (fs : gmap string database) (w : world) : world :=
  World (coreDb w) (authDb w) (auditDb w) (logged w) (conns w) fs (clock w) (faults w).
Definition set_engine (t : nat) (fs : list (option js_error)) (w : world) : world :=
  World (coreDb w) (authDb w) (auditDb w) (logged w) (conns w) (files w) t fs.

(** *** The logger *)
Definition logger (lv : level) (msg : string) (args : list log_arg) : M unit :=
  modify (λ w, set_logged (logged w ++ [Log lv msg args]) w).

(** *** The engine, seen from a connection

    Modelled from the spec: the methods of the [Database] class of
    [./sqlite-compat], which is not under src/. Opening can fail
    ("permissions, disk full, corruption"), applying a directive can fail,
    creating a structural object can fail; closing cannot. *)

(** Every engine operation starts here: the clock advances and the next
    scheduled failure, if any, is thrown. *)
Definition operation : M unit := λ w,
  match faults w with
  | Some e :: rest => (Throws e, set_engine (S (clock w)) rest w)
  | None :: rest => (Returns tt, set_engine (S (clock w)) rest w)
  | [] => (Returns tt, set_engine (S (clock w)) [] w)
  end.

Definition not_open : js_error := Error "The database connection is not open".

(** The connection behind a handle, when it is open. *)
Definition connected (db : handle) : M connection := λ w,
  match conns w !! db with
  | Some c => if conn_open c then (Returns c, w) else (Throws not_open, w)
  | None => (Throws not_open, w)
  end.

(** [new Database(path, { verbose })]: the file is created when it does not
    exist. *)
Definition new_Database (path : string) (verbose : bool) : M handle :=
  operation;;
  db ← read (λ w, length (conns w));
  modify (λ w, set_files (match files w !! path with
                          | Some _ => files w
                          | None => <[path := empty_database]> (files w)
                          end) w);;
  modify (λ w, set_conns (conns w ++ [Connection path verbose true [] false]) w);;
  mret db.

(** [db.pragma(directive)] *)
Definition db_pragma (db : handle) (directive : string) : M unit :=
  operation;;
  c ← connected db;
  modify (λ w, set_conns
    (<[db := Connection (conn_path c) (conn_verbose c) true
               (conn_pragmas c ++ [directive]) (conn_txn c)]> (conns w)) w).

Definition foreign_keys (c : connection) : bool :=
  bool_decide ("foreign_keys = ON" ∈ conn_pragmas c).

Definition content (path : string) (w : world) : database :=
  default empty_database (files w !! path).

(** One statement of a [db.exec] string. *)
Definition exec_one (db : handle) (s : stmt) : M unit :=
  operation;;
  c ← connected db;
  now ← read clock;
  d ← read (content (conn_path c));
  match exec_stmt (foreign_keys c) now s d with
  | Returns d' => modify (λ w, set_files (<[conn_path c := d']> (files w)) w)
  | Throws e => throw e
  end.

(** [db.exec(sql)]: the statements run in order; the first that fails stops
    the call, and what ran before it stays. *)
Fixpoint db_exec (db : handle) (sql : list stmt) : M unit :=
  match sql with
  | [] => mret tt
  | s :: rest => exec_one db s;; db_exec db rest
  end.

(** The two statements the module prepares. *)
Inductive sql_text :=
| SqlSelect (q : query)
| SqlInsertOrIgnore (table : string) (cols : list string).

Record statement := Statement {
  st_db : handle;
  st_sql : sql_text
}.

(** [db.prepare(sql)] *)
Definition db_prepare (db : handle) (sql : sql_text) : M statement :=
  operation;;
  c ← connected db;
  d ← read (content (conn_path c));
  match (match sql with
         | SqlSelect q => names_error (q_table q) [q_col q; q_wcol q] d
         | SqlInsertOrIgnore t cols => names_error t cols d
         end) with
  | Some e => throw e
  | None => mret (Statement db sql)
  end.

(** [statement.get()]: a row, or [undefined] *)
Definition stmt_get (st : statement) : M (option value) :=
  operation;;
  c ← connected (st_db st);
  d ← read (content (conn_path c));
  match st_sql st with
  | SqlSelect q => mret (select_get q d)
  | SqlInsertOrIgnore _ _ => throw (Error "This statement does not return data")
  end.

(** [statement.run(...args)] *)
Definition stmt_run (st : statement) (args : list value) : M unit :=
  match st_sql st with
  | SqlSelect _ => throw (Error "This statement returns data")
  | SqlInsertOrIgnore t cols => exec_one (st_db st) (INSERT_OR_IGNORE t cols args)
  end.

(** [db.close()]: closing twice is harmless. *)
Definition db_close (db : handle) : M unit :=
  modify (λ w,
    match conns w !! db with
    | Some c => set_conns (<[db := Connection (conn_path c) (conn_verbose c) false
                                      (conn_pragmas c) false]> (conns w)) w
    | None => w
    end).

Definition set_txn (db : handle) (b : bool) : M unit :=
  modify (λ w,
    match conns w !! db with
    | Some c => set_conns (<[db := Connection (conn_path c) (conn_verbose c) (conn_open c)
                                      (conn_pragmas c) b]> (conns w)) w
    | None => w
    end).

Definition restore (path : string) (saved : option database) : M unit :=
  modify (λ w, set_files (match saved with
                          | Some d => <[path := d]> (files w)
                          | None => delete path (files w)
                          end) w).

(** [db.transaction(fn)()]

    Modelled from the spec: the [transaction] method of the [Database] class
    of [./sqlite-compat], which is not under src/. Section 4.4: the work is
    invoked at most once; either all its mutations of the store are
    committed or none is retained; a failure of the work reaches the caller
    as a [TransactionError] that wraps the original cause; a transaction
    opened inside an open transaction on the same store is rejected. *)
Definition db_transaction {A} (db : handle) (fn : M A) : M A :=
  c ← connected db;
  if conn_txn c then throw (Error "cannot start a transaction within a transaction")
  else
    saved ← read (λ w, files w !! conn_path c);
    set_txn db true;;
    try_catch
      (a ← fn; set_txn db false;; mret a)
      (λ cause,
         set_txn db false;;
         restore (conn_path c) saved;;
         throw (TransactionError cause)).

(** ** database.js *)

(** [require('./index')]: the file paths and the environment mode. The file
    is not under src/; its values are parameters. *)
Record config := Config {
  corePath : string;
  authPath : string;
  auditPath : string;
  env : string
}.

(** The [bcryptjs] module, once loaded: [hashSync(password, rounds)], which
    draws its salt from the state of the world and may throw. *)
Definition bcrypt_module : Type := string → Z → nat → outcome string.

Section Module_.

Variable cfg : config.

(** What [require('bcryptjs')] gives: the module, or the loader throws. *)
Variable bcryptjs : outcome bcrypt_module.

Definition require_bcryptjs : M bcrypt_module := λ w,
  match bcryptjs with
  | Returns bcrypt => (Returns bcrypt, w)
  | Throws e => (Throws e, w)
  end.

Definition hashSync (bcrypt : bcrypt_module) (password : string) (rounds : Z) : M string :=
  λ w, (bcrypt password rounds (clock w), w).

(** Inicializa conexão com banco de dados *)
Definition initDatabase (dbPath name : string) : M handle :=
  try_catch
    (db ← new_Database dbPath (bool_decide (env cfg = "development"));
     db_pragma db "journal_mode = WAL";;
     db_pragma db "foreign_keys = ON";;
     db_pragma db "synchronous = NORMAL";;
     db_pragma db "cache_size = -64000";;
     db_pragma db "temp_store = MEMORY";;
     logger INFO ("Banco de dados " ++ name ++ " conectado: " ++ dbPath) [];;
     mret db)
    (λ error,
       logger ERROR ("Erro ao conectar banco " ++ name ++ ": " ++ message error) [];;
       throw error).

(** The [db.exec] calls of a bootstrap function, one after the other. *)
Fixpoint exec_calls (db : handle) (calls : list (list stmt)) : M unit :=
  match calls with
  | [] => mret tt
  | sql :: rest => db_exec db sql;; exec_calls db rest
  end.

(** Cria as tabelas do core.db se não existirem *)
Definition ensureCoreTables (db : handle) : M unit :=
  try_catch
    (exec_calls db CoreDdl.calls;;
     logger INFO "Tabelas do core.db verificadas/criadas com sucesso" [])
    (λ error,
       logger ERROR "Erro ao criar tabelas do core.db:" [ArgError error];;
       throw error).

(** The default administrator, inserted if it does not exist. *)
Definition seed_admin (db : handle) : M unit :=
  try_catch
    (bcrypt ← require_bcryptjs;
     existeAdmin ← (st ← db_prepare db (SqlSelect AuthDdl.existe_admin); stmt_get st);
     match existeAdmin with
     | None =>
         adminSenhaHash ← hashSync bcrypt "admin123" 10;
         st ← db_prepare db (SqlInsertOrIgnore "usuario_sistema" AuthDdl.admin_cols);
         stmt_run st [VText "Administrador"; VText "admin"; VText adminSenhaHash;
                      VNull; VInt 1; VInt 1];;
         logger INFO "Usuário admin padrão criado (login: admin, senha: admin123)" []
     | Some _ => mret tt
     end)
    (λ bcryptErr,
       logger WARN "Não foi possível criar usuário admin padrão:"
         [ArgText (message bcryptErr)]).

(** Cria as tabelas do auth.db se não existirem *)
Definition ensureAuthTables (db : handle) : M unit :=
  try_catch
    (exec_calls db AuthDdl.calls;;
     seed_admin db;;
     logger INFO "Tabelas do auth.db verificadas/criadas com sucesso" [])
    (λ error,
       logger ERROR "Erro ao criar tabelas do auth.db:" [ArgError error];;
       throw error).

(** Cria as tabelas do audit.db se não existirem *)
Definition ensureAuditTables (db : handle) : M unit :=
  try_catch
    (exec_calls db AuditDdl.calls;;
     logger INFO "Tabelas do audit.db verificadas/criadas com sucesso" [])
    (λ error,
       logger ERROR "Erro ao criar tabelas do audit.db:" [ArgError error];;
       throw error).

(** Obtém conexão com core.db (cria tabelas automaticamente se necessário).
    [ensureCoreTables(coreDb)] receives the handle just assigned. *)
Definition getCore : M (option handle) :=
  c ← read coreDb;
  match c with
  | None =>
      db ← initDatabase (corePath cfg) "core";
      modify (set_coreDb (Some db));;
      ensureCoreTables db
  | Some _ => mret tt
  end;;
  read coreDb.

(** Obtém conexão com auth.db (cria tabelas automaticamente se necessário) *)
Definition getAuth : M (option handle) :=
  c ← read authDb;
  match c with
  | None =>
      db ← initDatabase (authPath cfg) "auth";
      modify (set_authDb (Some db));;
      ensureAuthTables db
  | Some _ => mret tt
  end;;
  read authDb.

(** Obtém conexão com audit.db (cria tabelas automaticamente se necessário) *)
Definition getAudit : M (option handle) :=
  c ← read auditDb;
  match c with
  | None =>
      db ← initDatabase (auditPath cfg) "audit";
      modify (set_auditDb (Some db));;
      ensureAuditTables db
  | Some _ => mret tt
  end;;
  read auditDb.

(** Fecha todas as conexões *)
Definition closeAll : M unit :=
  c ← read coreDb;
  match c with
  | Some db =>
      db_close db;;
      modify (set_coreDb None);;
      logger INFO "Banco core.db fechado" []
  | None => mret tt
  end;;
  c ← read authDb;
  match c with
  | Some db =>
      db_close db;;
      modify (set_authDb None);;
      logger INFO "Banco auth.db fechado" []
  | None => mret tt
  end;;
  c ← read auditDb;
  match c with
  | Some db =>
      db_close db;;
      modify (set_auditDb None);;
      logger INFO "Banco audit.db fechado" []
  | None => mret tt
  end.

(** Executa transação no banco especificado: [return db.transaction(fn)()] *)
Definition transaction {A} (db : handle) (fn : M A) : M A :=
  db_transaction db fn.

End Module_.

(** * Vocabulary of the properties *)

Open Scope list_scope.

(** ** The order of the tables in [ensureCoreTables] *)
Module Order.

Definition creates (s : stmt) : option string :=
  match s with
  | CREATE_TABLE_IF_NOT_EXISTS name _ _ => Some name
  | _ => None
  end.

Definition parent_of (k : table_constraint) : option string :=
  match k with
  | FOREIGN_KEY _ parent _ _ => Some parent
  | _ => None
  end.

(** The tables named in the FOREIGN KEY clauses of a statement. *)
Definition references (s : stmt) : list string :=
  match s with
  | CREATE_TABLE_IF_NOT_EXISTS _ _ tcs => omap parent_of tcs
  | _ => []
  end.

(** The tables a run of statements creates. *)
Definition created (ss : list stmt) : list string := omap creates ss.

(** The statements of [ensureCoreTables] in the order the engine sees them. *)
Definition core_sequence : list stmt := concat CoreDdl.calls.

(** Every statement finds the tables it references already created. *)
Definition referents_first (ss : list stmt) : Prop :=
  ∀ pre s post parent,
    ss = pre ++ s :: post → parent ∈ references s → parent ∈ created pre.

(** The one reference of the core schema that points forward. *)
Definition forward (s : stmt) (parent : string) : bool :=
  bool_decide (creates s = Some "pedido" ∧ parent = "cupom").

(** A checker: [seen] holds the tables created so far; a reference that
    [fwd] marks must be created by a later statement, every other one
    must be in [seen]. *)
Fixpoint ordered (fwd : stmt → string → bool) (seen : list string) (ss : list stmt) : bool :=
  match ss with
  | [] => true
  | s :: rest =>
      forallb (λ p, if fwd s p then bool_decide (p ∈ created rest)
                    else bool_decide (p ∈ seen)) (references s)
      && ordered fwd (seen ++ created [s]) rest
  end.

End Order.

(** The statement that creates [pedido], what runs before it and after it. *)
Definition before_pedido : list stmt := take 22 Order.core_sequence.
Definition create_pedido : stmt := default (INSERT_OR_IGNORE "" [] []) (head CoreDdl.pedido).
Definition after_pedido : list stmt := drop 23 Order.core_sequence.


(** ** The three stores *)
Inductive store := Core | Auth | Audit.

#[global] Instance store_eq_dec : EqDecision store.
Proof. solve_decision. Defined.

Definition store_name (s : store) : string :=
  match s with Core => "core" | Auth => "auth" | Audit => "audit" end.

Definition store_path (cfg : config) (s : store) : string :=
  match s with Core => corePath cfg | Auth => authPath cfg | Audit => auditPath cfg end.

(** The variable of database.js that holds the connection of a store. *)
Definition cached (s : store) (w : world) : option handle :=
  match s with Core => coreDb w | Auth => authDb w | Audit => auditDb w end.

(** The getter of a store. *)
Definition getStore (cfg : config) (bcryptjs : outcome bcrypt_module) (s : store)
    : M (option handle) :=
  match s with
  | Core => getCore cfg
  | Auth => getAuth cfg bcryptjs
  | Audit => getAudit cfg
  end.

(** The bootstrap function of a store. *)
Definition ensureTables (bcryptjs : outcome bcrypt_module) (s : store) (db : handle)
    : M unit :=
  match s with
  | Core => ensureCoreTables db
  | Auth => ensureAuthTables bcryptjs db
  | Audit => ensureAuditTables db
  end.

Definition calls_of (s : store) : list (list stmt) :=
  match s with
  | Core => CoreDdl.calls
  | Auth => AuthDdl.calls
  | Audit => AuditDdl.calls
  end.

(** The connection [initDatabase] leaves behind when it returns. *)
Definition opened (cfg : config) (path : string) : connection :=
  Connection path (bool_decide (env cfg = "development")) true
    ["journal_mode = WAL"; "foreign_keys = ON"; "synchronous = NORMAL";
     "cache_size = -64000"; "temp_store = MEMORY"]
    false.

(** What the logger receives. *)
Definition connected_entry (name path : string) : log_entry :=
  Log INFO ("Banco de dados " ++ name ++ " conectado: " ++ path)%string [].
Definition connect_error_entry (name : string) (e : js_error) : log_entry :=
  Log ERROR ("Erro ao conectar banco " ++ name ++ ": " ++ message e)%string [].
Definition success_entry (s : store) : log_entry :=
  Log INFO
    match s with
    | Core => "Tabelas do core.db verificadas/criadas com sucesso"
    | Auth => "Tabelas do auth.db verificadas/criadas com sucesso"
    | Audit => "Tabelas do audit.db verificadas/criadas com sucesso"
    end [].
Definition failure_entry (s : store) (e : js_error) : log_entry :=
  Log ERROR
    match s with
    | Core => "Erro ao criar tabelas do core.db:"
    | Auth => "Erro ao criar tabelas do auth.db:"
    | Audit => "Erro ao criar tabelas do audit.db:"
    end [ArgError e].
Definition admin_created_entry : log_entry :=
  Log INFO "Usuário admin padrão criado (login: admin, senha: admin123)" [].
Definition admin_skipped_entry (e : js_error) : log_entry :=
  Log WARN "Não foi possível criar usuário admin padrão:" [ArgText (message e)].

(** An entry that closes a run of the bootstrap of store [s], well or
    badly; their number in the log is the number of runs. *)
Definition closes_bootstrap (s : store) (entry : log_entry) : bool :=
  bool_decide (lg_message entry = lg_message (success_entry s)
               ∨ lg_message entry = lg_message (failure_entry s (Error ""))).

Definition bootstraps (s : store) (w : world) : nat :=
  length (filter (λ entry, closes_bootstrap s entry = true) (logged w)).

(** The engine does not fail. *)
Definition quiet (fs : list (option js_error)) : Prop := Forall (λ f, f = None) fs.

(** ** The engine on one file

    What a run of engine operations through one connection sees and
    changes: the content of the file, the clock, the failures to come. The
    functions below act on that alone; the lemmas of the next part show
    that [db_exec], [seed_admin] and the bootstrap functions act on the
    world as these act on the file of the connection. *)
Definition engine_state : Type := database * nat * list (option js_error).

Definition estate (path : string) (w : world) : engine_state :=
  (content path w, clock w, faults w).

Definition op (st : engine_state) : outcome unit * engine_state :=
  match st with
  | (d, t, Some e :: rest) => (Throws e, (d, S t, rest))
  | (d, t, None :: rest) => (Returns tt, (d, S t, rest))
  | (d, t, []) => (Returns tt, (d, S t, []))
  end.

Definition step (fk : bool) (s : stmt) (st : engine_state) : outcome unit * engine_state :=
  match op st with
  | (Throws e, st') => (Throws e, st')
  | (Returns _, (d, t, fs)) =>
      match exec_stmt fk t s d with
      | Returns d' => (Returns tt, (d', t, fs))
      | Throws e => (Throws e, (d, t, fs))
      end
  end.

Fixpoint run (fk : bool) (ss : list stmt) (st : engine_state)
    : outcome unit * engine_state :=
  match ss with
  | [] => (Returns tt, st)
  | s :: rest =>
      match step fk s st with
      | (Returns _, st') => run fk rest st'
      | (Throws e, st') => (Throws e, st')
      end
  end.

Definition admin_values (hash : string) : list value :=
  [VText "Administrador"; VText "admin"; VText hash; VNull; VInt 1; VInt 1].

(** [seed_admin] on the file: the entries it logs and the state it leaves. *)
Definition seed (bcryptjs : outcome bcrypt_module) (fk : bool) (st : engine_state)
    : list log_entry * engine_state :=
  match bcryptjs with
  | Throws e => ([admin_skipped_entry e], st)
  | Returns bcrypt =>
  match op st with
  | (Throws e, st1) => ([admin_skipped_entry e], st1)
  | (Returns _, (d, t1, fs1)) =>
  match names_error "usuario_sistema" ["id"; "login"] d with
  | Some e => ([admin_skipped_entry e], (d, t1, fs1))
  | None =>
  match op (d, t1, fs1) with
  | (Throws e, st2) => ([admin_skipped_entry e], st2)
  | (Returns _, (_, t2, fs2)) =>
  match select_get AuthDdl.existe_admin d with
  | Some _ => ([], (d, t2, fs2))
  | None =>
  match bcrypt "admin123" 10 t2 with
  | Throws e => ([admin_skipped_entry e], (d, t2, fs2))
  | Returns hash =>
  match op (d, t2, fs2) with
  | (Throws e, st3) => ([admin_skipped_entry e], st3)
  | (Returns _, (_, t3, fs3)) =>
  match names_error "usuario_sistema" AuthDdl.admin_cols d with
  | Some e => ([admin_skipped_entry e], (d, t3, fs3))
  | None =>
  match step fk (INSERT_OR_IGNORE "usuario_sistema" AuthDdl.admin_cols (admin_values hash))
          (d, t3, fs3) with
  | (Throws e, st4) => ([admin_skipped_entry e], st4)
  | (Returns _, st4) => ([admin_created_entry], st4)
  end end end end end end end end end.

(** A bootstrap function on the file: whether it returns, the entries it
    logs, the state it leaves. *)
Definition boot (bcryptjs : outcome bcrypt_module) (s : store) (fk : bool)
    (st : engine_state) : outcome unit * list log_entry * engine_state :=
  match run fk (concat (calls_of s)) st with
  | (Throws e, st') => (Throws e, [failure_entry s e], st')
  | (Returns _, st') =>
      match s with
      | Auth =>
          let '(entries, st'') := seed bcryptjs fk st' in
          (Returns tt, entries ++ [success_entry s], st'')
      | _ => (Returns tt, [success_entry s], st')
      end
  end.

(** The file of a store after its first bootstrap, started at time [t] on
    an engine that does not fail. *)
Definition bootstrapped (bcryptjs : outcome bcrypt_module) (s : store) (t : nat)
    : database :=
  (boot bcryptjs s true (empty_database, t, [])).2.1.1.

(** The worlds that differ only in what the engine keeps for one file. *)
Definition engine_only (path : string) (w w' : world) : Prop :=
  coreDb w' = coreDb w ∧ authDb w' = authDb w ∧ auditDb w' = auditDb w
  ∧ conns w' = conns w
  ∧ ∀ q, q ≠ path → files w' !! q = files w !! q.

(** A run of getter calls, one after the other; a call that throws leaves
    its world to the next. *)
Fixpoint call_getters (cfg : config) (bcryptjs : outcome bcrypt_module)
    (calls : list store) (w : world) : world :=
  match calls with
  | [] => w
  | s :: rest => call_getters cfg bcryptjs rest (getStore cfg bcryptjs s w).2
  end.

(** ** Worlds to run the module in *)

Definition example_config : config :=
  Config "data/core.db" "data/auth.db" "data/audit.db" "production".

(** A stand-in for [bcryptjs] that answers every call. *)
Definition example_bcrypt : outcome bcrypt_module :=
  Returns (λ password rounds salt, Returns ("$2a$10$" ++ password)%string).

(** A process that has just loaded the module, on an empty data directory,
    with an engine that fails as [fs] says. *)
Definition fresh_process (fs : list (option js_error)) : world :=
  World None None None [] [] ∅ 0 fs.

Definition disk_full : js_error := Error "SQLITE_FULL: database or disk is full".
Definition cannot_open : js_error := Error "SQLITE_CANTOPEN: unable to open database file".

(** The engine opens and configures the connection, then fails on the
    first CREATE TABLE. *)
Definition bootstrap_fails : world :=
  fresh_process [None; None; None; None; None; None; Some disk_full].

(** The engine cannot open the file. *)
Definition open_fails : world := fresh_process [Some cannot_open].

(** The world in which [db.transaction] runs the work. *)
Definition in_transaction (db : handle) (w : world) : world := (set_txn db true w).2.

(** The core store, open and bootstrapped. *)
Definition core_ready : world :=
  (getStore example_config example_bcrypt Core (fresh_process [])).2.

(** A work function that inserts a coupon and then throws. *)
Definition failing_work : M unit :=
  exec_one 0 (INSERT_OR_IGNORE "cupom" ["codigo"] [VText "BEMVINDO10"]);;
  throw (Error "boom").

(** The same engine state on an engine that does not fail. *)
Definition calm (st : engine_state) : engine_state := (st.1, []).

(** The security store after the statements of [ensureAuthTables], before
    the administrator is seeded. *)
Definition auth_tables (t : nat) : database :=
  (run true (concat AuthDdl.calls) (empty_database, t, [])).2.1.1.

(** The rows of the default records. *)
Definition filial_rows (d : database) : list (list value) :=
  rows_where d "filial" "nome" (VText "Principal").
Definition tema_rows (d : database) : list (list value) :=
  rows_where d "tema" "id" (VInt 1).
Definition grupo_rows (d : database) : list (list value) :=
  rows_where d "grupo_acesso" "nome" (VText "Admin").
Definition admin_rows (d : database) : list (list value) :=
  rows_where d "usuario_sistema" "login" (VText "admin").

Definition seed_rows (s : store) (d : database) : list (list (list value)) :=
  match s with
  | Core => [filial_rows d; tema_rows d]
  | Auth => [grupo_rows d]
  | Audit => []
  end.

(** Every statement of a list finds its work already done in [d]. *)
Definition settled (ss : list stmt) (d : database) : Prop :=
  Forall (λ s, ∀ fk now, exec_stmt fk now s d = Returns d) ss.

(** The connection behind a handle is closed. *)
Definition closed_at (db : handle) (w : world) : Prop :=
  ∃ c, conns w !! db = Some c ∧ conn_open c = false.

(** The INSERT of the default administrator, with its parameters bound. *)
Definition insert_admin (hash : string) : stmt :=
  INSERT_OR_IGNORE "usuario_sistema" AuthDdl.admin_cols (admin_values hash).

(** The security store once the administrator is seeded with [hash] at
    time [now]. *)
Definition auth_seeded (t : nat) (hash : string) (now : nat) : database :=
  match exec_stmt true now (insert_admin hash) (auth_tables t) with
  | Returns d => d
  | Throws _ => auth_tables t
  end.

(** The row of the default administrator. *)
Definition admin_row (hash : string) (now : nat) : list value :=
  [VInt 1; VText "Administrador"; VText "admin"; VText hash; VNull; VNull;
   VInt 1; VInt 1; VInt 1; VNull; VDatetime now; VNull].

(** The hashing capability is unavailable: loading [bcryptjs] throws, or
    hashing the default password does. *)
Definition hashing_unavailable (bcryptjs : outcome bcrypt_module) (e : js_error) : Prop :=
  bcryptjs = Throws e
  ∨ ∃ bcrypt, bcryptjs = Returns bcrypt ∧ ∀ salt, bcrypt "admin123" 10 salt = Throws e.

(** The hashing capability answers. *)
Definition hashing_available (bcryptjs : outcome bcrypt_module) : Prop :=
  ∃ bcrypt, bcryptjs = Returns bcrypt
            ∧ ∀ salt, ∃ hash, bcrypt "admin123" 10 salt = Returns hash.

(** [hash] is a bcrypt hash of cost 10 of the default password. *)
Definition hash_of_admin123 (bcryptjs : outcome bcrypt_module) (hash : string) : Prop :=
  ∃ bcrypt salt, bcryptjs = Returns bcrypt ∧ bcrypt "admin123" 10 salt = Returns hash.

(** The tables a store has. *)
Definition has_tables (names : list string) (d : database) : Prop :=
  ∀ name, name ∈ names → is_Some (db_tables d !! name).

Definition rows_of (d : database) (name : string) : option (list (list value)) :=
  t_rows <$> db_tables d !! name.

(** One block of [closeAll]. *)
Definition set_cached (s : store) (v : option handle) (w : world) : world :=
  match s with
  | Core => set_coreDb v w
  | Auth => set_authDb v w
  | Audit => set_auditDb v w
  end.

Definition closed_entry (s : store) : log_entry :=
  Log INFO
    match s with
    | Core => "Banco core.db fechado"
    | Auth => "Banco auth.db fechado"
    | Audit => "Banco audit.db fechado"
    end [].

Definition close_one (s : store) (w : world) : world :=
  match cached s w with
  | Some db =>
      let w1 := (db_close db w).2 in
      let w2 := set_cached s None w1 in
      set_logged (logged w2 ++ [closed_entry s]) w2
  | None => w
  end.

(** What closing connections leaves alone. *)
Definition closing (w w' : world) : Prop :=
  files w' = files w ∧ faults w' = faults w ∧ clock w' = clock w
  ∧ length (conns w') = length (conns w)
  ∧ (∀ db, closed_at db w → closed_at db w')
  ∧ (∀ s, cached s w = None → cached s w' = None).

(** * Vocabulary of the further properties *)

(** ** Names in the bootstrap sequences *)
Module Names.

(** The tables a run of statements creates, each with its columns. *)
Definition declared (ss : list stmt) : list (string * list string) :=
  omap (λ s, match s with
             | CREATE_TABLE_IF_NOT_EXISTS name cols _ => Some (name, c_name <$> cols)
             | _ => None
             end) ss.

(** The indexes a run of statements creates. *)
Definition indexes (ss : list stmt) : list string :=
  omap (λ s, match s with
             | CREATE_INDEX_IF_NOT_EXISTS name _ _ => Some name
             | _ => None
             end) ss.

(** The table and the columns a statement needs to exist. *)
Definition needs (s : stmt) : option (string * list string) :=
  match s with
  | CREATE_TABLE_IF_NOT_EXISTS _ _ _ => None
  | CREATE_INDEX_IF_NOT_EXISTS _ table cols => Some (table, cols)
  | INSERT_OR_IGNORE table cols _ => Some (table, cols)
  end.

(** What the statement needs is among [tables]. *)
Definition resolved_in (tables : list (string * list string)) (s : stmt) : Prop :=
  ∀ table cols, needs s = Some (table, cols) →
    ∃ tcols, (table, tcols) ∈ tables ∧ ∀ c, c ∈ cols → c ∈ tcols.

Definition resolvedb (tables : list (string * list string)) (s : stmt) : bool :=
  match needs s with
  | None => true
  | Some (table, cols) =>
      bool_decide (Exists (λ entry, entry.1 = table
                                    ∧ Forall (λ c, c ∈ entry.2) cols) tables)
  end.

Fixpoint resolves (seen : list (string * list string)) (ss : list stmt) : bool :=
  match ss with
  | [] => true
  | s :: rest => resolvedb seen s && resolves (seen ++ declared [s]) rest
  end.

End Names.

(** ** Connections *)

(** The directives of [initDatabase], in the order of the source. *)
Definition directives : list string :=
  ["journal_mode = WAL"; "foreign_keys = ON"; "synchronous = NORMAL";
   "cache_size = -64000"; "temp_store = MEMORY"].

(** A connection that [initDatabase] has opened and on which only the first
    [n] directives have been applied. *)
Definition half_configured (cfg : config) (path : string) (n : nat) : connection :=
  Connection path (bool_decide (env cfg = "development")) true (take n directives) false.

(** The handles held in the variables of the module are handles the engine
    has handed out. *)
Definition handles_valid (w : world) : Prop :=
  ∀ s db, cached s w = Some db → (db < length (conns w))%nat.

(** ** Foreign keys *)

(** A FOREIGN KEY clause together with the columns of the table that
    carries it. *)
Record clause := Clause {
  k_columns : list column;
  k_col : string;
  k_parent : string;
  k_pcol : string
}.

Definition fk_clauses (s : stmt) : list clause :=
  match s with
  | CREATE_TABLE_IF_NOT_EXISTS _ cols tcs =>
      omap (λ k, match k with
                 | FOREIGN_KEY col parent pcol _ => Some (Clause cols col parent pcol)
                 | _ => None
                 end) tcs
  | _ => []
  end.

(** The statement creates table [parent] with [pcol] as a key. *)
Definition is_key (parent pcol : string) (s : stmt) : bool :=
  match s with
  | CREATE_TABLE_IF_NOT_EXISTS name cols _ =>
      bool_decide (name = parent)
      && existsb (λ c, bool_decide (c_name c = pcol) && is_unique c) cols
  | _ => false
  end.

Definition clause_ok (ss : list stmt) (k : clause) : bool :=
  bool_decide (k_col k ∈ c_name <$> k_columns k)
  && existsb (is_key (k_parent k) (k_pcol k)) ss.

(** ** What a bootstrap leaves alone *)

(** [d'] has every table of [d] with the same columns and constraints and
    with the rows of [d] first, and every index of [d]. *)
Definition keeps (d d' : database) : Prop :=
  (∀ name t, db_tables d !! name = Some t →
     ∃ t', db_tables d' !! name = Some t'
           ∧ t_columns t' = t_columns t ∧ t_constraints t' = t_constraints t
           ∧ t_rows t `prefix_of` t_rows t')
  ∧ (∀ name i, db_indexes d !! name = Some i → db_indexes d' !! name = Some i).

(** Every table and every index that [ss] creates is in [d]. *)
Definition has_all (ss : list stmt) (d : database) : Prop :=
  (∀ name, name ∈ Order.created ss → is_Some (db_tables d !! name))
  ∧ (∀ name, name ∈ Names.indexes ss → is_Some (db_indexes d !! name)).

(** The entries [closeAll] logs: one for each store whose variable holds a
    handle, core first. *)
Definition closed_entries (w : world) : list log_entry :=
  concat ((λ s, match cached s w with
                | Some _ => [closed_entry s]
                | None => []
                end) <$> [Core; Auth; Audit]).

(** ** Runs of the module *)

(** A call of one of the exported functions that take no work to run. *)
Inductive call := Get (s : store) | CloseAll.

Definition call_one (cfg : config) (bcryptjs : outcome bcrypt_module) (c : call)
    (w : world) : world :=
  match c with
  | Get s => (getStore cfg bcryptjs s w).2
  | CloseAll => (closeAll w).2
  end.

(** The world after a run of calls, whether they return or throw. *)
Definition call_all (cfg : config) (bcryptjs : outcome bcrypt_module)
    (calls : list call) (w : world) : world :=
  foldl (λ w c, call_one cfg bcryptjs c w) w calls.

(** Every handle held in a variable is an open connection on the file of
    its store, configured as [initDatabase] does, and no two variables hold
    the same handle. *)
Definition held_well (cfg : config) (w : world) : Prop :=
  (∀ s db, cached s w = Some db → conns w !! db = Some (opened cfg (store_path cfg s)))
  ∧ (∀ s s' db, cached s w = Some db → cached s' w = Some db → s = s').
(** * Properties *)

(** ** The order of the tables in [ensureCoreTables] *)

Lemma created_app (l1 l2 : list stmt) :
  Order.created (l1 ++ l2) = Order.created l1 ++ Order.created l2.
Proof. unfold Order.created. apply omap_app. Qed.

Lemma ordered_sound fwd ss : ∀ seen,
  Order.ordered fwd seen ss = true →
  ∀ pre s post p, ss = pre ++ s :: post → p ∈ Order.references s →
    if fwd s p then p ∈ Order.created post else p ∈ seen ++ Order.created pre.
Proof.
  induction ss as [|s0 ss IH]; intros seen Hok pre s post p Heq Hp.
  - by destruct pre.
  - cbn [Order.ordered] in Hok. apply andb_prop in Hok as [Hhere Hrest].
    destruct pre as [|s1 pre]; simplify_eq/=.
    + rewrite forallb_forall in Hhere.
      apply list_elem_of_In, Hhere in Hp.
      destruct (fwd s p); apply bool_decide_eq_true in Hp; [done|].
      rewrite app_nil_r. done.
    + specialize (IH _ Hrest pre s post p eq_refl Hp).
      destruct (fwd s p); [done|].
      rewrite <- app_assoc in IH. by destruct (Order.creates s1).
Qed.



Lemma core_sequence_at_pedido :
  Order.core_sequence = before_pedido ++ create_pedido :: after_pedido.
Proof. reflexivity. Qed.

(** C3, as the claim states it, fails: [pedido] is created in the eleventh
    call with a FOREIGN KEY on [cupom], and [cupom] is created in the
    sixteenth. *)
Lemma pedido_is_created_before_cupom : ¬ Order.referents_first Order.core_sequence.
Proof.
  intros H.
  specialize (H before_pedido create_pedido after_pedido "cupom"
                core_sequence_at_pedido).
  assert (Hin : "cupom" ∈ Order.references create_pedido)
    by (refine (proj1 (bool_decide_eq_true _) _); reflexivity).
  assert (Hno : bool_decide ("cupom" ∈ Order.created before_pedido) = false)
    by reflexivity.
  exact (proj1 (bool_decide_eq_false _) Hno (H Hin)).
Qed.

(** C3, amended: in the sequence of [ensureCoreTables] every table named in
    a FOREIGN KEY clause is created earlier in the sequence, except [cupom],
    which [pedido] references and which is created later in the same
    sequence. *)
Theorem core_tables_follow_their_referents :
  ∀ pre s post parent,
    Order.core_sequence = pre ++ s :: post →
    parent ∈ Order.references s →
    if Order.forward s parent
    then parent ∈ Order.created post
    else parent ∈ Order.created pre.
Proof.
  intros pre s post parent Heq Hin.
  apply (ordered_sound Order.forward Order.core_sequence [] eq_refl
           pre s post parent Heq Hin).
Qed.

Lemma core_tables_follow_their_referents_witness :
  (Order.core_sequence = before_pedido ++ create_pedido :: after_pedido
   ∧ "cliente_endereco" ∈ Order.references create_pedido)
  ∧ "cliente_endereco" ∈ Order.created before_pedido.
Proof.
  assert (Hin : "cliente_endereco" ∈ Order.references create_pedido)
    by (refine (proj1 (bool_decide_eq_true _) _); reflexivity).
  split; [split; [reflexivity | exact Hin] |].
  exact (core_tables_follow_their_referents before_pedido create_pedido after_pedido
           "cliente_endereco" core_sequence_at_pedido Hin).
Defined.

(** ** Running the module step by step *)

Lemma lookup_last {A} (l : list A) (x : A) : (l ++ [x]) !! length l = Some x.
Proof. by apply list_lookup_middle. Qed.

Lemma insert_last {A} (l : list A) (x y : A) : <[length l := y]> (l ++ [x]) = l ++ [y].
Proof. rewrite insert_app_r_alt by lia. by rewrite Nat.sub_diag. Qed.

Lemma pair_eta_fst {A B} (p : A * B) (a : A) : p.1 = a → p = (a, p.2).
Proof. destruct p. cbn. by intros ->. Qed.

Ltac unfold_m :=
  repeat progress
    unfold mbind, M_bind, mret, M_ret, throw, try_catch, read, modify, logger,
      set_coreDb, set_authDb, set_auditDb, set_logged, set_conns, set_files,
      set_engine, content, estate in *.

Ltac fields :=
  cbn [faults clock conns files logged coreDb authDb auditDb
       conn_open conn_path conn_verbose conn_pragmas conn_txn fst snd] in *.

Ltac steps :=
  repeat (progress fields || rewrite lookup_last || rewrite insert_last
          || rewrite lookup_insert_eq).

Lemma engine_only_refl path w : engine_only path w w.
Proof. by repeat split. Qed.

Lemma engine_only_trans path w1 w2 w3 :
  engine_only path w1 w2 → engine_only path w2 w3 → engine_only path w1 w3.
Proof.
  intros (?&?&?&?&H12) (?&?&?&?&H23). repeat split; try congruence.
  intros q Hq. rewrite H23, H12; done.
Qed.

(** [operation] on the world is [op] on the file of any connection. *)
Lemma operation_op path w :
  ∃ w', operation w = ((op (estate path w)).1, w')
        ∧ engine_only path w w' ∧ logged w' = logged w ∧ files w' = files w
        ∧ estate path w' = (op (estate path w)).2.
Proof.
  destruct w as [c a u lg cs fs t fl]. unfold operation, op. unfold_m. fields.
  destruct fl as [|[e|] fl]; eexists; (split; [reflexivity|]); fields;
    repeat split; done.
Qed.

Lemma exec_one_step db c s w :
  conns w !! db = Some c → conn_open c = true →
  ∃ w', exec_one db s w = ((step (foreign_keys c) s (estate (conn_path c) w)).1, w')
        ∧ engine_only (conn_path c) w w' ∧ logged w' = logged w
        ∧ estate (conn_path c) w' = (step (foreign_keys c) s (estate (conn_path c) w)).2.
Proof.
  intros Hc Hopen. destruct w as [cc a u lg cs fs t fl].
  unfold exec_one, operation, connected, step, op. unfold_m. fields.
  destruct fl as [|[e|] fl]; fields; rewrite ?Hc, ?Hopen; fields.
  2: { eexists; split; [reflexivity|]; fields. repeat split; done. }
  all: destruct (exec_stmt _ _ _ _) as [d'|e]; eexists; (split; [reflexivity|]);
    fields; rewrite ?lookup_insert_eq; repeat split; try done.
  all: intros q Hq; fields; by rewrite lookup_insert_ne.
Qed.

Lemma db_exec_run db c ss : ∀ w,
  conns w !! db = Some c → conn_open c = true →
  ∃ w', db_exec db ss w = ((run (foreign_keys c) ss (estate (conn_path c) w)).1, w')
        ∧ engine_only (conn_path c) w w' ∧ logged w' = logged w
        ∧ estate (conn_path c) w' = (run (foreign_keys c) ss (estate (conn_path c) w)).2.
Proof.
  induction ss as [|s ss IH]; intros w Hc Hopen.
  - exists w. cbn. auto using engine_only_refl.
  - destruct (exec_one_step db c s w Hc Hopen) as (w1 & Hrun & Hfr & Hlog & Hst).
    cbn [db_exec run]. unfold mbind, M_bind. rewrite Hrun.
    destruct (step _ s _) as [[[]|e] st1]; cbn [fst snd] in *.
    + destruct (IH w1) as (w2 & Hrun2 & Hfr2 & Hlog2 & Hst2).
      { destruct Hfr as (_&_&_&Hcs&_). by rewrite Hcs. }
      { done. }
      rewrite Hst in Hrun2, Hst2. exists w2.
      split; [exact Hrun2|]. split; [eauto using engine_only_trans|].
      split; [congruence | exact Hst2].
    + exists w1. auto.
Qed.

Lemma exec_calls_concat db calls : ∀ w,
  exec_calls db calls w = db_exec db (concat calls) w.
Proof.
  assert (Happ : ∀ l1 l2 w, db_exec db (l1 ++ l2) w
                            = (db_exec db l1 ;; db_exec db l2) w).
  { induction l1 as [|s l1 IH]; intros l2 w.
    - by unfold mbind, M_bind.
    - cbn [app db_exec]. unfold mbind, M_bind in *.
      destruct (exec_one db s w) as [[[]|e] w1]; [apply IH | done]. }
  induction calls as [|sql calls IH]; intros w; [done|].
  cbn [exec_calls concat]. rewrite Happ. unfold mbind, M_bind.
  destruct (db_exec db sql w) as [[[]|e] w1]; [apply IH | done].
Qed.

(** [seed_admin] on the world is [seed] on the file of the connection. *)
Lemma seed_admin_run bcryptjs db c w :
  conns w !! db = Some c → conn_open c = true →
  ∃ w', seed_admin bcryptjs db w = (Returns tt, w')
        ∧ engine_only (conn_path c) w w'
        ∧ logged w' = logged w ++ (seed bcryptjs (foreign_keys c) (estate (conn_path c) w)).1
        ∧ estate (conn_path c) w' = (seed bcryptjs (foreign_keys c) (estate (conn_path c) w)).2.
Proof.
  intros Hc Hopen. destruct w as [cc a u lg cs fs t fl].
  unfold seed_admin, seed, require_bcryptjs, hashSync, db_prepare, stmt_get, stmt_run,
    exec_one, operation, connected, step, op, admin_values.
  unfold_m. fields.
  repeat first
    [ progress (fields; rewrite ?Hc, ?Hopen; cbn [st_db st_sql q_table q_col q_wcol
        AuthDdl.existe_admin])
    | match goal with
      | H : ?t = _ |- context [match ?t with _ => _ end] => rewrite H
      | |- context [match ?x with _ => _ end] => is_var x; destruct x as [|[?|] ?]
      | |- context [match ?x with _ => _ end] => is_var x; destruct x
      | |- context [match names_error ?a ?b ?c with _ => _ end] =>
          destruct (names_error a b c) eqn:?
      | |- context [match select_get ?a ?b with _ => _ end] =>
          destruct (select_get a b) eqn:?
      | |- context [match exec_stmt ?a ?b ?c ?d with _ => _ end] =>
          destruct (exec_stmt a b c d) eqn:?
      | b : bcrypt_module |- context [match ?b ?x ?y ?z with _ => _ end] =>
          destruct (b x y z) eqn:?
      end ].
  all: eexists; (split; [reflexivity|]); fields; rewrite ?lookup_insert_eq, ?app_nil_r;
    repeat split; try done.
  all: intros q Hq; fields; by rewrite ?lookup_insert_ne.
Qed.

Lemma engine_only_logged path w l : engine_only path w (set_logged l w).
Proof. by repeat split. Qed.

(** A bootstrap function on the world is [boot] on the file of the
    connection. *)
Lemma ensureTables_run bcryptjs s db c w :
  conns w !! db = Some c → conn_open c = true →
  ∃ w', ensureTables bcryptjs s db w
          = ((boot bcryptjs s (foreign_keys c) (estate (conn_path c) w)).1.1, w')
        ∧ engine_only (conn_path c) w w'
        ∧ logged w'
          = logged w ++ (boot bcryptjs s (foreign_keys c) (estate (conn_path c) w)).1.2
        ∧ estate (conn_path c) w'
          = (boot bcryptjs s (foreign_keys c) (estate (conn_path c) w)).2.
Proof.
  intros Hc Hopen.
  destruct (db_exec_run db c (concat (calls_of s)) w Hc Hopen)
    as (w1 & Hrun & Hfr & Hlog & Hst).
  assert (Hc1 : conns w1 !! db = Some c).
  { destruct Hfr as (_&_&_&Hcs&_). by rewrite Hcs. }
  destruct (seed_admin_run bcryptjs db c w1 Hc1 Hopen) as (w2 & Hseed & Hfr2 & Hlog2 & Hst2).
  unfold boot.
  destruct (run _ _ _) as [[[]|e] st1] eqn:Hr; cbn [fst snd] in *.
  - destruct s; cbn [calls_of] in *;
      unfold ensureTables, ensureCoreTables, ensureAuthTables, ensureAuditTables,
      try_catch, mbind, M_bind; rewrite exec_calls_concat, Hrun.
    + eexists. split; [reflexivity|]. unfold logger, modify.
      split; [eauto using engine_only_trans, engine_only_logged|].
      split; [cbn; by rewrite Hlog|]. exact Hst.
    + rewrite Hseed. rewrite Hst in Hlog2, Hst2.
      destruct (seed _ _ _) as [entries st2]; cbn [fst snd] in *.
      eexists. split; [reflexivity|]. unfold logger, modify.
      split; [eauto using engine_only_trans, engine_only_logged|].
      split; [cbn; by rewrite Hlog2, Hlog, app_assoc|]. exact Hst2.
    + eexists. split; [reflexivity|]. unfold logger, modify.
      split; [eauto using engine_only_trans, engine_only_logged|].
      split; [cbn; by rewrite Hlog|]. exact Hst.
  - destruct s; cbn [calls_of] in *;
      unfold ensureTables, ensureCoreTables, ensureAuthTables, ensureAuditTables,
      try_catch, mbind, M_bind; rewrite exec_calls_concat, Hrun;
      unfold logger, modify, throw; (eexists; split; [reflexivity|]);
      (split; [eauto using engine_only_trans, engine_only_logged|]);
      (split; [cbn; by rewrite Hlog|]); exact Hst.
Qed.

(** [initDatabase]: either one of its six engine operations fails, and the
    error is logged and thrown again, or the connection is open and
    configured. *)
Ltac finish_open :=
  steps; eexists; repeat (split; [first [reflexivity | lia | by repeat constructor]|]);
  first [reflexivity | by repeat constructor | idtac].

Lemma initDatabase_cases cfg path name w :
  (∃ (k : nat) e rest w',
      (k ≤ 5)%nat ∧ faults w = replicate k None ++ Some e :: rest
      ∧ initDatabase cfg path name w = (Throws e, w')
      ∧ coreDb w' = coreDb w ∧ authDb w' = authDb w ∧ auditDb w' = auditDb w
      ∧ logged w' = logged w ++ [connect_error_entry name e]
      ∧ (∀ q, content q w' = content q w)
      ∧ faults w' = rest)
  ∨ (∃ w', initDatabase cfg path name w = (Returns (length (conns w)), w')
      ∧ coreDb w' = coreDb w ∧ authDb w' = authDb w ∧ auditDb w' = auditDb w
      ∧ logged w' = logged w ++ [connected_entry name path]
      ∧ conns w' = conns w ++ [opened cfg path]
      ∧ clock w' = (6 + clock w)%nat
      ∧ faults w' = drop 6 (faults w)
      ∧ quiet (take 6 (faults w))
      ∧ (∀ q, content q w' = content q w)).
Proof.
  destruct w as [c a u lg cs fs t fl].
  assert (Hcontent : ∀ q,
    default empty_database
      (match fs !! path with Some _ => fs | None => <[path:=empty_database]> fs end !! q)
    = default empty_database (fs !! q)).
  { intros q. destruct (fs !! path) eqn:Hp; [done|].
    destruct (decide (path = q)) as [<-|Hne].
    - by rewrite lookup_insert_eq, Hp.
    - by rewrite lookup_insert_ne. }
  unfold initDatabase, new_Database, db_pragma, operation, connected, opened,
    connect_error_entry, connected_entry.
  unfold_m.
  destruct fl as [|[e|] fl]; [ right; finish_open | left; exists 0%nat, e, fl; finish_open | destruct fl as [|[e|] fl]; [ right; finish_open | left; exists 1%nat, e, fl; finish_open | destruct fl as [|[e|] fl]; [ right; finish_open | left; exists 2%nat, e, fl; finish_open | destruct fl as [|[e|] fl]; [ right; finish_open | left; exists 3%nat, e, fl; finish_open | destruct fl as [|[e|] fl]; [ right; finish_open | left; exists 4%nat, e, fl; finish_open | destruct fl as [|[e|] fl]; [ right; finish_open | left; exists 5%nat, e, fl; finish_open | right; finish_open ] ] ] ] ] ].
  all: intros q; fields; first [done | apply Hcontent].
Qed.

(** ** The getters *)

Lemma getStore_cached cfg bcryptjs s w h :
  cached s w = Some h → getStore cfg bcryptjs s w = (Returns (Some h), w).
Proof.
  intros Hc. destruct s; cbn [cached] in Hc;
    unfold getStore, getCore, getAuth, getAudit; unfold_m; by rewrite !Hc.
Qed.

Lemma foreign_keys_opened cfg path : foreign_keys (opened cfg path) = true.
Proof. reflexivity. Qed.

Lemma content_estate path w w' : estate path w' = estate path w → content path w' = content path w.
Proof. unfold estate. congruence. Qed.

(** A getter whose variable is empty: either [initDatabase] throws and
    nothing is kept, or the handle is kept and the bootstrap function runs
    on the file of the store. *)
Lemma getStore_cold cfg bcryptjs s w :
  cached s w = None →
  (∃ (k : nat) e rest w',
      (k ≤ 5)%nat ∧ faults w = replicate k None ++ Some e :: rest
      ∧ getStore cfg bcryptjs s w = (Throws e, w')
      ∧ (∀ s', cached s' w' = cached s' w)
      ∧ logged w' = logged w ++ [connect_error_entry (store_name s) e]
      ∧ (∀ q, content q w' = content q w)
      ∧ faults w' = rest)
  ∨ (quiet (take 6 (faults w))
     ∧ ∃ w', getStore cfg bcryptjs s w
             = (match (boot bcryptjs s true
                         (content (store_path cfg s) w, (6 + clock w)%nat,
                          drop 6 (faults w))).1.1 with
                | Returns _ => Returns (Some (length (conns w)))
                | Throws e => Throws e
                end, w')
       ∧ cached s w' = Some (length (conns w))
       ∧ (∀ s', s' ≠ s → cached s' w' = cached s' w)
       ∧ logged w'
         = logged w ++ connected_entry (store_name s) (store_path cfg s)
             :: (boot bcryptjs s true
                   (content (store_path cfg s) w, (6 + clock w)%nat,
                    drop 6 (faults w))).1.2
       ∧ conns w' = conns w ++ [opened cfg (store_path cfg s)]
       ∧ estate (store_path cfg s) w'
         = (boot bcryptjs s true
              (content (store_path cfg s) w, (6 + clock w)%nat, drop 6 (faults w))).2
       ∧ (∀ q, q ≠ store_path cfg s → files w' !! q = files w !! q
                                       ∨ content q w' = content q w)).
Proof.
  intros Hcold.
  destruct (initDatabase_cases cfg (store_path cfg s) (store_name s) w)
    as [(k&e&rest&w1&Hk&Hf&Hinit&Hc&Ha&Hu&Hlog&Hcont&Hfl)
       |(w1&Hinit&Hc&Ha&Hu&Hlog&Hcs&Hclock&Hfl&Hq&Hcont)].
  - left. exists k, e, rest, w1. repeat split; try done.
    + destruct s; cbn [cached store_path store_name] in *;
        unfold getStore, getCore, getAuth, getAudit, mbind, M_bind, read;
        by rewrite Hcold, Hinit.
    + by intros [].
  - right. split; [done|].
    set (h := length (conns w)) in *.
    set (upd := match s with Core => set_coreDb | Auth => set_authDb | Audit => set_auditDb end).
    set (w2 := upd (Some h) w1).
    assert (Hc2 : conns w2 !! h = Some (opened cfg (store_path cfg s))).
    { assert (conns w2 = conns w1) as -> by (by destruct s).
      rewrite Hcs. apply lookup_last. }
    destruct (ensureTables_run bcryptjs s h _ w2 Hc2 eq_refl)
      as (w3 & Hens & Hfr & Hlog3 & Hst).
    assert (Hst2 : estate (store_path cfg s) w2
                   = (content (store_path cfg s) w, (6 + clock w)%nat, drop 6 (faults w))).
    { unfold estate. rewrite <- Hcont, <- Hclock, <- Hfl. by destruct s. }
    cbn [conn_path opened] in *. rewrite foreign_keys_opened, Hst2 in *.
    destruct Hfr as (Hc3&Ha3&Hu3&Hcs3&Hfiles3).
    exists w3. repeat split.
    + destruct s; subst w2 upd; cbn beta iota in *;
        cbn [cached store_path store_name ensureTables] in *;
        unfold getStore, getCore, getAuth, getAudit, mbind, M_bind, read, modify, mret, M_ret;
        rewrite Hcold, Hinit; rewrite Hens;
        destruct (boot _ _ _ _) as [[[[]|e] entries] st]; cbn [fst snd];
        first [by rewrite Hc3 | by rewrite Ha3 | by rewrite Hu3 | done].
    + by destruct s; cbn [cached]; rewrite ?Hc3, ?Ha3, ?Hu3.
    + intros s' Hs'. destruct s, s'; try done; cbn [cached];
        rewrite ?Hc3, ?Ha3, ?Hu3; subst w2 upd; cbn; done.
    + rewrite Hlog3. assert (logged w2 = logged w1) as -> by (by destruct s).
      by rewrite Hlog, <- app_assoc.
    + rewrite Hcs3. assert (conns w2 = conns w1) as -> by (by destruct s). done.
    + exact Hst.
    + intros q Hne. right. unfold content. rewrite (Hfiles3 q Hne).
      assert (files w2 = files w1) as -> by (by destruct s). apply Hcont.
Qed.

(** *** Counting the runs of a bootstrap in the log *)

Lemma bootstraps_app s w w' entries :
  logged w' = logged w ++ entries →
  bootstraps s w'
  = (bootstraps s w + length (filter (λ entry, closes_bootstrap s entry = true) entries))%nat.
Proof. intros H. unfold bootstraps. by rewrite H, filter_app, length_app. Qed.

Lemma connect_error_plain s name e : closes_bootstrap s (connect_error_entry name e) = false.
Proof.
  apply bool_decide_eq_false. intros [H|H]; destruct s; cbn in H; discriminate.
Qed.

Lemma connected_plain s name path : closes_bootstrap s (connected_entry name path) = false.
Proof.
  apply bool_decide_eq_false. intros [H|H]; destruct s; cbn in H; discriminate.
Qed.

Lemma seed_entries bcryptjs fk st :
  (seed bcryptjs fk st).1 = []
  ∨ (seed bcryptjs fk st).1 = [admin_created_entry]
  ∨ ∃ e, (seed bcryptjs fk st).1 = [admin_skipped_entry e].
Proof.
  unfold seed, step. destruct st as [[d t] fs].
  repeat (cbn [fst]; first [ by left | by right; left | by right; right; eexists
                            | case_match ]).
Qed.

Lemma boot_entries_count bcryptjs s s' fk st :
  length (filter (λ entry, closes_bootstrap s entry = true) (boot bcryptjs s' fk st).1.2)
  = if decide (s = s') then 1%nat else 0%nat.
Proof.
  unfold boot. destruct (run _ _ _) as [[[]|e] st1].
  - assert (Hlast : length (filter (λ entry, closes_bootstrap s entry = true)
                              [success_entry s'])
                    = if decide (s = s') then 1%nat else 0%nat)
      by (destruct s, s'; reflexivity).
    destruct s'; try exact Hlast.
    destruct (seed_entries bcryptjs fk st1) as [H|[H|[e H]]];
      destruct (seed _ _ _) as [entries st2]; cbn [fst snd] in *; subst entries;
      destruct s; reflexivity.
  - destruct s, s'; reflexivity.
Qed.

(** A getter call either leaves the variable and the number of bootstrap
    runs of store [s] as they were, or fills the empty variable of [s] and
    runs its bootstrap once. *)
Lemma getStore_bootstraps cfg bcryptjs s s' w :
  (cached s (getStore cfg bcryptjs s' w).2 = cached s w
   ∧ bootstraps s (getStore cfg bcryptjs s' w).2 = bootstraps s w)
  ∨ (cached s w = None ∧ is_Some (cached s (getStore cfg bcryptjs s' w).2)
     ∧ bootstraps s (getStore cfg bcryptjs s' w).2 = S (bootstraps s w)).
Proof.
  destruct (cached s' w) as [h|] eqn:Hc.
  { rewrite (getStore_cached _ _ _ _ _ Hc). by left. }
  destruct (getStore_cold cfg bcryptjs s' w Hc)
    as [(k&e&rest&w1&_&_&Hget&Hcs&Hlog&_)|(_&w1&Hget&Hnew&Hothers&Hlog&_)];
    rewrite Hget; cbn [snd].
  - left. split; [apply Hcs|].
    rewrite (bootstraps_app s w w1 _ Hlog), filter_cons, connect_error_plain.
    destruct (decide (false = true)); [done|]. rewrite filter_nil. cbn [length]. lia.
  - rewrite (bootstraps_app s w w1 _ Hlog).
    assert (Hcount : length (filter (λ entry, closes_bootstrap s entry = true)
                        (connected_entry (store_name s') (store_path cfg s')
                           :: (boot bcryptjs s' true
                                 (content (store_path cfg s') w, (6 + clock w)%nat,
                                  drop 6 (faults w))).1.2))
                     = if decide (s = s') then 1%nat else 0%nat).
    { rewrite filter_cons, connected_plain.
      destruct (decide (false = true)); [done|]. apply boot_entries_count. }
    rewrite Hcount. destruct (decide (s = s')) as [->|Hne].
    + right. rewrite Hnew. split; [done|]. split; [by eexists | lia].
    + left. split; [by apply Hothers | lia].
Qed.

Lemma call_getters_bootstraps cfg bcryptjs s calls : ∀ w,
  (bootstraps s (call_getters cfg bcryptjs calls w)
   ≤ bootstraps s w + match cached s w with Some _ => 0 | None => 1 end)%nat.
Proof.
  induction calls as [|s' calls IH]; intros w; cbn [call_getters]; [lia|].
  specialize (IH (getStore cfg bcryptjs s' w).2).
  destruct (getStore_bootstraps cfg bcryptjs s s' w) as [[Hc Hb]|(Hc&[h Hh]&Hb)].
  - rewrite Hc, Hb in IH. exact IH.
  - rewrite Hh, Hb in IH. rewrite Hc. lia.
Qed.

(** C1. For every store, when a call of its getter returns, it returns the
    handle now held in the variable of the store, and a second call returns
    the same handle and leaves the world as it is: no engine operation, no
    directive, no bootstrap. In any run of getter calls the bootstrap of a
    store runs at most once, and not at all once its getter has returned. *)
Theorem getter_is_an_idempotent_singleton cfg bcryptjs s w v w1 :
  getStore cfg bcryptjs s w = (Returns v, w1) →
  (∃ h, v = Some h ∧ cached s w1 = Some h
        ∧ getStore cfg bcryptjs s w1 = (Returns (Some h), w1))
  ∧ (∀ calls, bootstraps s (call_getters cfg bcryptjs calls w1) = bootstraps s w1)
  ∧ (∀ calls, (bootstraps s (call_getters cfg bcryptjs calls w) ≤ S (bootstraps s w))%nat).
Proof.
  intros Hget.
  assert (Hh : ∃ h, v = Some h ∧ cached s w1 = Some h).
  { destruct (cached s w) as [h|] eqn:Hc.
    - rewrite (getStore_cached _ _ _ _ _ Hc) in Hget. simplify_eq. eauto.
    - destruct (getStore_cold cfg bcryptjs s w Hc)
        as [(k&e&rest&w'&_&_&Hget'&_)|(_&w'&Hget'&Hnew&_)];
        rewrite Hget' in Hget; [done|].
      destruct (boot _ _ _ _).1.1; simplify_eq. eauto. }
  destruct Hh as (h & -> & Hc1). split; [|split].
  - exists h. eauto using getStore_cached.
  - intros calls. apply Nat.le_antisymm.
    + pose proof (call_getters_bootstraps cfg bcryptjs s calls w1) as H.
      rewrite Hc1 in H. lia.
    + clear. revert w1. induction calls as [|s' calls IH]; intros w1; [done|].
      cbn [call_getters]. etrans; [|apply IH].
      destruct (getStore_bootstraps cfg bcryptjs s s' w1) as [[_ ->]|(_&_&->)]; lia.
  - intros calls. pose proof (call_getters_bootstraps cfg bcryptjs s calls w) as H.
    destruct (cached s w); lia.
Qed.

Lemma getter_is_an_idempotent_singleton_witness :
  getStore example_config example_bcrypt Auth (fresh_process [])
  = (Returns (Some 0%nat), (getStore example_config example_bcrypt Auth (fresh_process [])).2)
  ∧ getStore example_config example_bcrypt Auth
      (getStore example_config example_bcrypt Auth (fresh_process [])).2
    = (Returns (Some 0%nat), (getStore example_config example_bcrypt Auth (fresh_process [])).2).
Proof.
  assert (H : getStore example_config example_bcrypt Auth (fresh_process [])
              = (Returns (Some 0%nat),
                 (getStore example_config example_bcrypt Auth (fresh_process [])).2))
    by (apply pair_eta_fst; vm_cast_no_check (eq_refl (Returns (Some 0%nat)))).
  split; [exact H|].
  destruct (getter_is_an_idempotent_singleton _ _ _ _ _ _ H) as [(h & Hv & _ & Hagain) _].
  injection Hv as <-. exact Hagain.
Defined.

(** *** When the getter fails *)

Lemma first_fault_unique (k k' : nat) (e e' : js_error) rest rest' :
  replicate k None ++ Some e :: rest = replicate k' None ++ Some e' :: rest' →
  k = k' ∧ e = e' ∧ rest = rest'.
Proof.
  revert k'. induction k as [|k IH]; intros [|k'] H; simplify_eq/=; [done|].
  destruct (IH k' H) as (->&->&->). done.
Qed.

Lemma fault_is_not_quiet (k : nat) e rest :
  (k ≤ 5)%nat → ¬ quiet (take 6 (replicate k None ++ Some e :: rest)).
Proof.
  intros Hk Hq. unfold quiet in Hq. rewrite Forall_lookup in Hq.
  specialize (Hq k (Some e)). rewrite lookup_take_lt in Hq by lia.
  rewrite list_lookup_middle in Hq by (by rewrite length_replicate).
  by specialize (Hq eq_refl).
Qed.

(** C2, on the code. When the connection opens and the bootstrap throws, the
    variable of the store keeps the handle: the next call of the getter
    returns it and runs nothing. *)
Theorem failed_bootstrap_leaves_the_handle_cached cfg bcryptjs s w e w1 :
  cached s w = None →
  quiet (take 6 (faults w)) →
  getStore cfg bcryptjs s w = (Throws e, w1) →
  cached s w1 = Some (length (conns w))
  ∧ getStore cfg bcryptjs s w1 = (Returns (Some (length (conns w))), w1).
Proof.
  intros Hc Hq Hget.
  destruct (getStore_cold cfg bcryptjs s w Hc)
    as [(k&e'&rest&w'&Hk&Hf&_)|(_&w'&Hget'&Hnew&_)].
  - rewrite Hf in Hq. by apply fault_is_not_quiet in Hq.
  - rewrite Hget' in Hget. assert (w' = w1) as -> by congruence.
    eauto using getStore_cached.
Qed.

Lemma failed_bootstrap_leaves_the_handle_cached_witness :
  (cached Core bootstrap_fails = None
   ∧ quiet (take 6 (faults bootstrap_fails))
   ∧ getStore example_config example_bcrypt Core bootstrap_fails
     = (Throws disk_full, (getStore example_config example_bcrypt Core bootstrap_fails).2))
  ∧ cached Core (getStore example_config example_bcrypt Core bootstrap_fails).2 = Some 0%nat
  ∧ getStore example_config example_bcrypt Core
      (getStore example_config example_bcrypt Core bootstrap_fails).2
    = (Returns (Some 0%nat), (getStore example_config example_bcrypt Core bootstrap_fails).2)
  ∧ db_tables (content "data/core.db"
                 (getStore example_config example_bcrypt Core bootstrap_fails).2) = ∅.
Proof.
  assert (Hq : quiet (take 6 (faults bootstrap_fails))) by (by repeat constructor).
  assert (H : getStore example_config example_bcrypt Core bootstrap_fails
              = (Throws disk_full,
                 (getStore example_config example_bcrypt Core bootstrap_fails).2))
    by (apply pair_eta_fst; vm_cast_no_check (eq_refl (@Throws (option nat) disk_full))).
  split; [split; [reflexivity | split; [exact Hq | exact H]]|].
  destruct (failed_bootstrap_leaves_the_handle_cached example_config example_bcrypt Core
              bootstrap_fails disk_full _ eq_refl Hq H) as [Hc Hagain].
  split; [exact Hc|]. split; [exact Hagain|].
  vm_cast_no_check (eq_refl (∅ : gmap string table)).
Defined.

(** C6, as the claim states it, fails: the engine cannot open the file of
    the core store, and the getter throws the error of the engine itself,
    not a [ConnectionError] that carries the name of the store. *)
Lemma open_failure_is_not_a_ConnectionError :
  (getStore example_config example_bcrypt Core open_fails).1 = Throws cannot_open
  ∧ ¬ ∃ name cause,
        (getStore example_config example_bcrypt Core open_fails).1
        = Throws (ConnectionError name cause).
Proof.
  assert (H : (getStore example_config example_bcrypt Core open_fails).1
              = Throws cannot_open)
    by vm_cast_no_check (eq_refl (@Throws (option nat) cannot_open)).
  split; [exact H|]. intros (name & cause & H'). rewrite H in H'. discriminate.
Qed.

(** C6, amended. When the engine cannot open the file of a store, or one of
    the five directives fails to apply, the getter logs the name of the
    store with the message of the error and throws the error of the engine
    unchanged; the variable of the store stays empty, so the next call
    opens again. *)
Theorem open_failure_is_rethrown cfg bcryptjs s w (k : nat) e rest :
  cached s w = None →
  (k ≤ 5)%nat →
  faults w = replicate k None ++ Some e :: rest →
  ∃ w', getStore cfg bcryptjs s w = (Throws e, w')
        ∧ cached s w' = None
        ∧ logged w' = logged w ++ [connect_error_entry (store_name s) e].
Proof.
  intros Hc Hk Hf.
  destruct (getStore_cold cfg bcryptjs s w Hc)
    as [(k'&e'&rest'&w'&_&Hf'&Hget&Hcs&Hlog&_)|(Hq&_)].
  - rewrite Hf in Hf'. apply first_fault_unique in Hf' as (_&<-&_).
    exists w'. by rewrite Hcs.
  - rewrite Hf in Hq. by apply fault_is_not_quiet in Hq.
Qed.

Lemma open_failure_is_rethrown_witness :
  (cached Auth (fresh_process [None; None; Some disk_full]) = None
   ∧ (2 ≤ 5)%nat
   ∧ faults (fresh_process [None; None; Some disk_full])
     = replicate 2 None ++ Some disk_full :: [])
  ∧ ∃ w', getStore example_config example_bcrypt Auth
            (fresh_process [None; None; Some disk_full]) = (Throws disk_full, w')
          ∧ cached Auth w' = None
          ∧ logged w' = logged (fresh_process [None; None; Some disk_full])
                        ++ [connect_error_entry (store_name Auth) disk_full].
Proof.
  split; [repeat split; lia|].
  apply (open_failure_is_rethrown example_config example_bcrypt Auth
           (fresh_process [None; None; Some disk_full]) 2 disk_full []);
    [reflexivity | lia | reflexivity].
Defined.

(** ** Transactions *)

(** C4. When the work throws, the file of the store is, after the call, what
    it was before the call. *)
Theorem failed_transaction_changes_nothing {A} db (fn : M A) w c e w2 :
  conns w !! db = Some c → conn_open c = true → conn_txn c = false →
  fn (in_transaction db w) = (Throws e, w2) →
  files (transaction db fn w).2 !! conn_path c = files w !! conn_path c.
Proof.
  intros Hc Hopen Htxn Hfn. destruct c as [p v o pr tx].
  cbn [conn_open conn_txn] in *. subst o tx.
  unfold transaction, db_transaction, connected, in_transaction, set_txn, restore in *.
  unfold_m. cbn [snd] in Hfn. rewrite Hc in Hfn.
  repeat first [rewrite Hc | progress fields]. rewrite Hfn.
  destruct (conns w2 !! db); fields;
    destruct (files w !! p); fields; by rewrite ?lookup_insert_eq, ?lookup_delete_eq.
Qed.

Lemma failed_transaction_changes_nothing_witness :
  (conns core_ready !! 0%nat = Some (opened example_config "data/core.db")
   ∧ (failing_work (in_transaction 0 core_ready)).1 = Throws (Error "boom")
   ∧ rows_where (content "data/core.db" (failing_work (in_transaction 0 core_ready)).2)
       "cupom" "codigo" (VText "BEMVINDO10") ≠ [])
  ∧ files (transaction 0 failing_work core_ready).2 !! "data/core.db"
    = files core_ready !! "data/core.db".
Proof.
  assert (Hc : conns core_ready !! 0%nat = Some (opened example_config "data/core.db"))
    by vm_cast_no_check (eq_refl (Some (opened example_config "data/core.db"))).
  assert (Hfn : failing_work (in_transaction 0 core_ready)
                = (Throws (Error "boom"), (failing_work (in_transaction 0 core_ready)).2))
    by (apply pair_eta_fst; vm_cast_no_check (eq_refl (@Throws unit (Error "boom")))).
  split; [split; [exact Hc | split; [by rewrite Hfn|]]|].
  { assert (Hrows : rows_where
              (content "data/core.db" (failing_work (in_transaction 0 core_ready)).2)
              "cupom" "codigo" (VText "BEMVINDO10")
            = [[VInt 1; VText "BEMVINDO10"; VNull; VNull; VInt 0; VInt 0; VNull; VNull;
                VInt 1; VDatetime 80]])
      by vm_cast_no_check
           (eq_refl [[VInt 1; VText "BEMVINDO10"; VNull; VNull; VInt 0; VInt 0; VNull;
                      VNull; VInt 1; VDatetime 80]]).
    by rewrite Hrows. }
  exact (failed_transaction_changes_nothing 0 failing_work core_ready _ _ _
           Hc eq_refl eq_refl Hfn).
Defined.

(** C5. When the work throws, the call throws a [TransactionError] whose
    cause is what the work threw. *)
Theorem work_failure_reaches_the_caller {A} db (fn : M A) w c e w2 :
  conns w !! db = Some c → conn_open c = true → conn_txn c = false →
  fn (in_transaction db w) = (Throws e, w2) →
  (transaction db fn w).1 = Throws (TransactionError e).
Proof.
  intros Hc Hopen Htxn Hfn. destruct c as [p v o pr tx].
  cbn [conn_open conn_txn] in *. subst o tx.
  unfold transaction, db_transaction, connected, in_transaction, set_txn, restore in *.
  unfold_m. cbn [snd] in Hfn. rewrite Hc in Hfn.
  repeat first [rewrite Hc | progress fields]. rewrite Hfn.
  by destruct (conns w2 !! db).
Qed.

Lemma work_failure_reaches_the_caller_witness :
  (conns core_ready !! 0%nat = Some (opened example_config "data/core.db")
   ∧ (failing_work (in_transaction 0 core_ready)).1 = Throws (Error "boom"))
  ∧ (transaction 0 failing_work core_ready).1 = Throws (TransactionError (Error "boom")).
Proof.
  assert (Hc : conns core_ready !! 0%nat = Some (opened example_config "data/core.db"))
    by vm_cast_no_check (eq_refl (Some (opened example_config "data/core.db"))).
  assert (Hfn : failing_work (in_transaction 0 core_ready)
                = (Throws (Error "boom"), (failing_work (in_transaction 0 core_ready)).2))
    by (apply pair_eta_fst; vm_cast_no_check (eq_refl (@Throws unit (Error "boom")))).
  split; [split; [exact Hc | by rewrite Hfn]|].
  exact (work_failure_reaches_the_caller 0 failing_work core_ready _ _ _
           Hc eq_refl eq_refl Hfn).
Defined.

(** ** The engine on one file, when it does not fail *)

Lemma quiet_inv f fs : quiet (f :: fs) → f = None ∧ quiet fs.
Proof. intros H. by inversion H. Qed.

Lemma op_calm st :
  quiet st.2 →
  (op st).1 = Returns tt
  ∧ calm (op st).2 = (op (calm st)).2
  ∧ quiet (op st).2.2.
Proof.
  destruct st as [[d t] [|[e|] fs]]; cbn; intros H; try done.
  - by apply quiet_inv in H as [? _].
  - by apply quiet_inv in H as [_ ?].
Qed.

Lemma step_calm fk s st :
  quiet st.2 →
  (step fk s st).1 = (step fk s (calm st)).1
  ∧ calm (step fk s st).2 = (step fk s (calm st)).2
  ∧ quiet (step fk s st).2.2.
Proof.
  destruct st as [[d t] [|[e|] fs]]; cbn; intros H.
  - by destruct (exec_stmt _ _ _ _).
  - by apply quiet_inv in H as [? _].
  - apply quiet_inv in H as [_ ?]. unfold step. cbn.
    by destruct (exec_stmt _ _ _ _).
Qed.

Lemma run_calm fk ss : ∀ st,
  quiet st.2 →
  (run fk ss st).1 = (run fk ss (calm st)).1
  ∧ calm (run fk ss st).2 = (run fk ss (calm st)).2
  ∧ quiet (run fk ss st).2.2.
Proof.
  induction ss as [|s ss IH]; intros st Hq; [done|].
  cbn [run]. destruct (step_calm fk s st Hq) as (Hr & Hst & Hq').
  destruct (step fk s st) as [[[]|e] st1], (step fk s (calm st)) as [r' st1'];
    cbn [fst snd] in *; subst.
  - by apply IH.
  - done.
Qed.

(** Statements whose work is done leave the file as it is, whatever the
    engine does. *)
Lemma run_settled fk ss d : settled ss d → ∀ t fs, (run fk ss (d, t, fs)).2.1.1 = d.
Proof.
  induction 1 as [|s ss Hs _ IH]; intros t fs; [done|].
  cbn [run]. unfold step.
  destruct fs as [|[e|] fs]; cbn [op]; try done; rewrite Hs; apply IH.
Qed.

(** The administrator is inserted only when the SELECT finds none. *)
Lemma seed_keeps_admin bcryptjs fk d t fs :
  is_Some (select_get AuthDdl.existe_admin d) →
  (seed bcryptjs fk (d, t, fs)).2.1.1 = d.
Proof.
  intros [v Hv]. unfold seed. destruct bcryptjs as [bc|e]; [|done].
  destruct fs as [|[e|] fs]; cbn [op]; try done;
    (destruct (names_error _ _ d); [done|]);
    try destruct fs as [|[e|] fs]; cbn [op]; try done; by rewrite Hv.
Qed.

Ltac quiet_cases fs H :=
  destruct fs as [|[?|] fs];
  [ | by apply quiet_inv in H as [? _] | apply quiet_inv in H as [_ H] ].

Lemma seed_calm bcryptjs fk st :
  quiet st.2 →
  (seed bcryptjs fk st).1 = (seed bcryptjs fk (calm st)).1
  ∧ calm (seed bcryptjs fk st).2 = (seed bcryptjs fk (calm st)).2
  ∧ quiet (seed bcryptjs fk st).2.2.
Proof.
  destruct st as [[d t] fs]. unfold calm. cbn [fst snd]. intros Hq.
  unfold seed, step. destruct bcryptjs as [bc|e]; [|done].
  quiet_cases fs Hq; cbn [op]; (destruct (names_error _ _ d); [done|]).
  - cbn [op]. repeat (cbn [fst snd op] in *; first [done | case_match | progress simplify_eq]).
  - quiet_cases fs Hq; cbn [op]; (destruct (select_get _ d); [done|]);
      (destruct (bc _ _ _); [|done]).
    + repeat (cbn [fst snd op] in *; first [done | case_match | progress simplify_eq]).
    + quiet_cases fs Hq; cbn [op];
        (destruct (names_error _ _ d); [done|]).
      * repeat (cbn [fst snd op] in *; first [done | case_match | progress simplify_eq]).
      * quiet_cases fs Hq; cbn [op]; by destruct (exec_stmt _ _ _ _).
Qed.

Lemma boot_calm bcryptjs s fk st :
  quiet st.2 →
  (boot bcryptjs s fk st).1 = (boot bcryptjs s fk (calm st)).1
  ∧ calm (boot bcryptjs s fk st).2 = (boot bcryptjs s fk (calm st)).2
  ∧ quiet (boot bcryptjs s fk st).2.2.
Proof.
  intros Hq. unfold boot.
  destruct (run_calm fk (concat (calls_of s)) st Hq) as (Hr & Hst & Hq1).
  destruct (run fk _ st) as [r st1], (run fk _ (calm st)) as [r' st1'].
  cbn [fst snd] in *. subst r' st1'. destruct r as [[]|e]; [|done].
  destruct s; try done.
  destruct (seed_calm bcryptjs fk st1 Hq1) as (Hr2 & Hst2 & Hq2).
  destruct (seed bcryptjs fk st1) as [l st2], (seed bcryptjs fk (calm st1)) as [l' st2'].
  cbn [fst snd] in *. by subst.
Qed.
(** ** The files after a first bootstrap *)

Ltac settle d :=
  unfold settled;
  match goal with
  | |- Forall _ ?ss => let l := eval vm_compute in ss in change ss with l
  end;
  repeat (apply Forall_cons_2; [intros ? ?; vm_cast_no_check (eq_refl (Returns d))|]);
  apply Forall_nil_2.

Lemma boot_core_fresh b t :
  boot b Core true (empty_database, t, [])
  = (Returns tt, [success_entry Core], (bootstrapped b Core t, (73 + t)%nat, [])).
Proof. vm_cast_no_check (eq_refl (boot b Core true (empty_database, t, []))). Qed.

Lemma core_settled b t : settled (concat CoreDdl.calls) (bootstrapped b Core t).
Proof. settle (bootstrapped b Core t). Qed.

Lemma core_filial_rows b t :
  filial_rows (bootstrapped b Core t)
  = [[VInt 1; VText "Principal"; VText "loja"; VInt 1; VDatetime (73 + t)]].
Proof.
  vm_cast_no_check
    (eq_refl [[VInt 1; VText "Principal"; VText "loja"; VInt 1; VDatetime (73 + t)]]).
Qed.

Lemma core_tema_rows b t :
  tema_rows (bootstrapped b Core t)
  = [[VInt 1; VText "#4a86e8"; VText "#357abd"; VNull; VNull; VNull; VDatetime (54 + t)]].
Proof.
  vm_cast_no_check
    (eq_refl [[VInt 1; VText "#4a86e8"; VText "#357abd"; VNull; VNull; VNull;
               VDatetime (54 + t)]]).
Qed.

Lemma boot_audit_fresh b t :
  boot b Audit true (empty_database, t, [])
  = (Returns tt, [success_entry Audit], (bootstrapped b Audit t, (4 + t)%nat, [])).
Proof. vm_cast_no_check (eq_refl (boot b Audit true (empty_database, t, []))). Qed.

Lemma audit_settled b t : settled (concat AuditDdl.calls) (bootstrapped b Audit t).
Proof. settle (bootstrapped b Audit t). Qed.

Lemma run_auth_fresh t :
  run true (concat AuthDdl.calls) (empty_database, t, [])
  = (Returns tt, (auth_tables t, (33 + t)%nat, [])).
Proof. vm_cast_no_check (eq_refl (run true (concat AuthDdl.calls) (empty_database, t, []))). Qed.

Lemma auth_tables_settled t : settled (concat AuthDdl.calls) (auth_tables t).
Proof. settle (auth_tables t). Qed.

Lemma auth_tables_select t : select_get AuthDdl.existe_admin (auth_tables t) = None.
Proof. vm_cast_no_check (eq_refl (@None value)). Qed.

Lemma auth_tables_names t cols :
  cols = ["id"; "login"] ∨ cols = AuthDdl.admin_cols →
  names_error "usuario_sistema" cols (auth_tables t) = None.
Proof. intros [->| ->]; vm_cast_no_check (eq_refl (@None js_error)). Qed.

Lemma auth_tables_insert t hash now :
  exec_stmt true now (insert_admin hash) (auth_tables t)
  = Returns (auth_seeded t hash now).
Proof. vm_cast_no_check (eq_refl (Returns (auth_seeded t hash now))). Qed.

Lemma auth_seeded_settled t hash now :
  settled (concat AuthDdl.calls) (auth_seeded t hash now).
Proof. settle (auth_seeded t hash now). Qed.

Lemma auth_seeded_select t hash now :
  select_get AuthDdl.existe_admin (auth_seeded t hash now) = Some (VInt 1).
Proof. vm_cast_no_check (eq_refl (Some (VInt 1))). Qed.

Lemma auth_seeded_admin_rows t hash now :
  admin_rows (auth_seeded t hash now) = [admin_row hash now].
Proof. vm_cast_no_check (eq_refl [admin_row hash now]). Qed.

Lemma auth_tables_admin_rows t : admin_rows (auth_tables t) = [].
Proof. vm_cast_no_check (eq_refl (@nil (list value))). Qed.

Lemma auth_tables_grupo_rows t :
  grupo_rows (auth_tables t)
  = [[VInt 1; VText "Admin"; VText "Administrador total do sistema"; VDatetime (33 + t)]].
Proof.
  vm_cast_no_check
    (eq_refl [[VInt 1; VText "Admin"; VText "Administrador total do sistema";
               VDatetime (33 + t)]]).
Qed.

Lemma auth_seeded_grupo_rows t hash now :
  grupo_rows (auth_seeded t hash now) = grupo_rows (auth_tables t).
Proof. vm_cast_no_check (eq_refl (grupo_rows (auth_tables t))). Qed.

Lemma boot_auth_fresh b t :
  boot b Auth true (empty_database, t, [])
  = match b with
    | Throws e =>
        (Returns tt, [admin_skipped_entry e; success_entry Auth],
         (auth_tables t, (33 + t)%nat, []))
    | Returns bc =>
        match bc "admin123" 10 (35 + t)%nat with
        | Throws e =>
            (Returns tt, [admin_skipped_entry e; success_entry Auth],
             (auth_tables t, (35 + t)%nat, []))
        | Returns hash =>
            (Returns tt, [admin_created_entry; success_entry Auth],
             (auth_seeded t hash (37 + t), (37 + t)%nat, []))
        end
    end.
Proof.
  unfold boot. cbn [calls_of]. rewrite run_auth_fresh. unfold seed.
  destruct b as [bc|e]; [|done]. cbn [op].
  rewrite !auth_tables_names, auth_tables_select by auto.
  change (S (S (33 + t))) with (35 + t)%nat.
  destruct (bc _ _ _) as [hash|e]; [|done].
  unfold step. cbn [op]. fold (insert_admin hash).
  by rewrite auth_tables_insert.
Qed.

Lemma boot_fresh_returns b s t : (boot b s true (empty_database, t, [])).1.1 = Returns tt.
Proof.
  destruct s.
  - by rewrite boot_core_fresh.
  - rewrite boot_auth_fresh. by repeat case_match.
  - by rewrite boot_audit_fresh.
Qed.

Lemma quiet_not_fault (k : nat) e rest : ¬ quiet (replicate k None ++ Some e :: rest).
Proof.
  intros Hq. unfold quiet in Hq. rewrite Forall_lookup in Hq.
  specialize (Hq k (Some e)).
  rewrite list_lookup_middle in Hq by (by rewrite length_replicate).
  by specialize (Hq eq_refl).
Qed.

(** The first call of a getter on an empty file, with an engine that does
    not fail. *)
Lemma getStore_fresh cfg bcryptjs s w :
  cached s w = None →
  content (store_path cfg s) w = empty_database →
  quiet (faults w) →
  ∃ w', getStore cfg bcryptjs s w = (Returns (Some (length (conns w))), w')
        ∧ cached s w' = Some (length (conns w))
        ∧ (∀ s', s' ≠ s → cached s' w' = cached s' w)
        ∧ logged w'
          = logged w ++ connected_entry (store_name s) (store_path cfg s)
              :: (boot bcryptjs s true (empty_database, (6 + clock w)%nat, [])).1.2
        ∧ conns w' = conns w ++ [opened cfg (store_path cfg s)]
        ∧ content (store_path cfg s) w' = bootstrapped bcryptjs s (6 + clock w)
        ∧ quiet (faults w').
Proof.
  intros Hc Hempty Hq.
  destruct (getStore_cold cfg bcryptjs s w Hc)
    as [(k&e&rest&w'&_&Hf&_)|(_&w'&Hget&Hnew&Hothers&Hlog&Hcs&Hst&_)].
  { rewrite Hf in Hq. by apply quiet_not_fault in Hq. }
  rewrite Hempty in *.
  set (st := (empty_database, (6 + clock w)%nat, drop 6 (faults w))) in *.
  assert (Hq6 : quiet st.2) by (by apply Forall_drop).
  destruct (boot_calm bcryptjs s true st Hq6) as (Hr & Hcalm & Hq').
  change (calm st) with (empty_database, (6 + clock w)%nat, @nil (option js_error)) in *.
  exists w'. rewrite Hget, Hlog, Hr.
  assert (Hret := boot_fresh_returns bcryptjs s (6 + clock w)).
  destruct (boot bcryptjs s true (empty_database, _, [])) as [[r entries] st'] eqn:Hboot.
  cbn [fst snd] in *. subst r.
  repeat split; try done.
  - unfold bootstrapped. rewrite Hboot. cbn [fst snd].
    unfold estate in Hst. rewrite <- Hcalm, <- Hst. done.
  - unfold estate in Hst. rewrite <- Hst in Hq'. done.
Qed.

(** ** The default rows *)

Lemma auth_tables_has_tables t :
  has_tables (Order.created (concat AuthDdl.calls)) (auth_tables t).
Proof.
  assert (H : forallb (λ name, bool_decide (is_Some (db_tables (auth_tables t) !! name)))
                (Order.created (concat AuthDdl.calls)) = true)
    by vm_cast_no_check (eq_refl true).
  intros name Hin. rewrite forallb_forall in H.
  apply list_elem_of_In, H in Hin. by apply bool_decide_eq_true in Hin.
Qed.

Lemma auth_tables_no_user t : rows_of (auth_tables t) "usuario_sistema" = Some [].
Proof. vm_cast_no_check (eq_refl (Some (@nil (list value)))). Qed.

Lemma boot_auth_unavailable bcryptjs e t :
  hashing_unavailable bcryptjs e →
  (boot bcryptjs Auth true (empty_database, t, [])).1.2
  = [admin_skipped_entry e; success_entry Auth]
  ∧ bootstrapped bcryptjs Auth t = auth_tables t.
Proof.
  unfold bootstrapped. rewrite boot_auth_fresh.
  intros [->|(bc & -> & Hbc)]; [done|]. by rewrite Hbc.
Qed.

(** C7. On a fresh security store, with an engine that does not fail, when
    the hashing capability is unavailable [getAuth] still returns the
    handle and keeps it: the bootstrap has created every table and the
    Admin group, has logged one warning with the message of the error, and
    has inserted no user. *)
Theorem admin_seed_is_skipped_without_hashing cfg bcryptjs w e :
  authDb w = None →
  content (authPath cfg) w = empty_database →
  quiet (faults w) →
  hashing_unavailable bcryptjs e →
  ∃ w', getAuth cfg bcryptjs w = (Returns (Some (length (conns w))), w')
        ∧ authDb w' = Some (length (conns w))
        ∧ conns w' !! length (conns w) = Some (opened cfg (authPath cfg))
        ∧ logged w'
          = logged w ++ [connected_entry "auth" (authPath cfg);
                         admin_skipped_entry e; success_entry Auth]
        ∧ has_tables (Order.created (concat AuthDdl.calls)) (content (authPath cfg) w')
        ∧ length (grupo_rows (content (authPath cfg) w')) = 1%nat
        ∧ rows_of (content (authPath cfg) w') "usuario_sistema" = Some [].
Proof.
  intros Hc Hempty Hq Hun.
  destruct (getStore_fresh cfg bcryptjs Auth w Hc Hempty Hq)
    as (w' & Hget & Hnew & _ & Hlog & Hcs & Hcontent & _).
  destruct (boot_auth_unavailable bcryptjs e (6 + clock w) Hun) as [Hentries Hd].
  cbn [store_path store_name cached getStore] in *.
  rewrite Hentries in Hlog. rewrite Hd in Hcontent.
  exists w'. rewrite Hcontent, auth_tables_grupo_rows.
  split; [exact Hget|]. split; [exact Hnew|].
  split; [rewrite Hcs; apply lookup_last|]. split; [exact Hlog|].
  split; [apply auth_tables_has_tables|]. split; [reflexivity|].
  apply auth_tables_no_user.
Qed.

Lemma admin_seed_is_skipped_without_hashing_witness :
  (authDb (fresh_process []) = None
   ∧ content (authPath example_config) (fresh_process []) = empty_database
   ∧ quiet (faults (fresh_process []))
   ∧ hashing_unavailable (Throws (Error "Cannot find module 'bcryptjs'"))
       (Error "Cannot find module 'bcryptjs'"))
  ∧ ∃ w', getAuth example_config (Throws (Error "Cannot find module 'bcryptjs'"))
            (fresh_process []) = (Returns (Some 0%nat), w')
          ∧ rows_of (content (authPath example_config) w') "usuario_sistema" = Some [].
Proof.
  assert (Hq : quiet (faults (fresh_process []))) by constructor.
  assert (Hun : hashing_unavailable (Throws (Error "Cannot find module 'bcryptjs'"))
                  (Error "Cannot find module 'bcryptjs'")) by (by left).
  split; [split; [reflexivity | split; [reflexivity | split; [exact Hq | exact Hun]]]|].
  destruct (admin_seed_is_skipped_without_hashing example_config _ (fresh_process []) _
              eq_refl eq_refl Hq Hun) as (w' & Hget & _ & _ & _ & _ & _ & Hrows).
  exists w'. split; [exact Hget | exact Hrows].
Defined.

Lemma admin_row_fields t hash now :
  field (auth_seeded t hash now) "usuario_sistema" "login" (admin_row hash now)
  = Some (VText "admin")
  ∧ field (auth_seeded t hash now) "usuario_sistema" "senha_hash" (admin_row hash now)
    = Some (VText hash)
  ∧ field (auth_seeded t hash now) "usuario_sistema" "grupo_acesso_id" (admin_row hash now)
    = Some (VInt 1)
  ∧ field (auth_seeded t hash now) "usuario_sistema" "filial_id" (admin_row hash now)
    = Some (VInt 1).
Proof.
  split; [vm_cast_no_check (eq_refl (Some (VText "admin")))|].
  split; [vm_cast_no_check (eq_refl (Some (VText hash)))|].
  split; vm_cast_no_check (eq_refl (Some (VInt 1))).
Qed.

Lemma boot_auth_available bcryptjs t :
  hashing_available bcryptjs →
  ∃ hash, hash_of_admin123 bcryptjs hash
          ∧ (boot bcryptjs Auth true (empty_database, t, [])).1.2
            = [admin_created_entry; success_entry Auth]
          ∧ bootstrapped bcryptjs Auth t = auth_seeded t hash (37 + t).
Proof.
  intros (bc & -> & Hbc). unfold bootstrapped. rewrite boot_auth_fresh.
  destruct (Hbc (35 + t)%nat) as [hash Hhash]. rewrite Hhash.
  exists hash. split; [by exists bc, (35 + t)%nat|]. done.
Qed.

(** C10. On a fresh security store, with an engine that does not fail and a
    hashing capability that answers, the bootstrap inserts one user: its
    login is "admin", its password hash is what [hashSync("admin123", 10)]
    returned, its access group is 1 and its branch is 1. Whatever the
    store, when a user with login "admin" exists the seeding step leaves
    the file of the store as it is. *)
Theorem default_administrator cfg bcryptjs :
  (∀ w, authDb w = None →
        content (authPath cfg) w = empty_database →
        quiet (faults w) →
        hashing_available bcryptjs →
        ∃ w' hash row,
          getAuth cfg bcryptjs w = (Returns (Some (length (conns w))), w')
          ∧ hash_of_admin123 bcryptjs hash
          ∧ rows_of (content (authPath cfg) w') "usuario_sistema" = Some [row]
          ∧ admin_rows (content (authPath cfg) w') = [row]
          ∧ field (content (authPath cfg) w') "usuario_sistema" "login" row
            = Some (VText "admin")
          ∧ field (content (authPath cfg) w') "usuario_sistema" "senha_hash" row
            = Some (VText hash)
          ∧ field (content (authPath cfg) w') "usuario_sistema" "grupo_acesso_id" row
            = Some (VInt 1)
          ∧ field (content (authPath cfg) w') "usuario_sistema" "filial_id" row
            = Some (VInt 1))
  ∧ (∀ db c w, conns w !! db = Some c → conn_open c = true →
               is_Some (select_get AuthDdl.existe_admin (content (conn_path c) w)) →
               content (conn_path c) (seed_admin bcryptjs db w).2
               = content (conn_path c) w).
Proof.
  split.
  - intros w Hc Hempty Hq Hav.
    destruct (getStore_fresh cfg bcryptjs Auth w Hc Hempty Hq)
      as (w' & Hget & _ & _ & _ & _ & Hcontent & _).
    destruct (boot_auth_available bcryptjs (6 + clock w) Hav) as (hash & Hhash & _ & Hd).
    cbn [store_path store_name cached getStore] in *. rewrite Hd in Hcontent.
    exists w', hash, (admin_row hash (37 + (6 + clock w))). rewrite Hcontent.
    split; [exact Hget|]. split; [exact Hhash|].
    split; [vm_cast_no_check (eq_refl (Some [admin_row hash (37 + (6 + clock w))]))|].
    split; [apply auth_seeded_admin_rows|]. apply admin_row_fields.
  - intros db c w Hc Hopen Hadmin.
    destruct (seed_admin_run bcryptjs db c w Hc Hopen) as (w' & Hrun & _ & _ & Hst).
    rewrite Hrun. cbn [snd]. unfold estate in Hst.
    assert (Hd := seed_keeps_admin bcryptjs (foreign_keys c) _ (clock w) (faults w) Hadmin).
    rewrite <- Hst in Hd. exact Hd.
Qed.

Lemma default_administrator_witness :
  (authDb (fresh_process []) = None
   ∧ content (authPath example_config) (fresh_process []) = empty_database
   ∧ quiet (faults (fresh_process []))
   ∧ hashing_available example_bcrypt)
  ∧ ∃ w' row,
      getAuth example_config example_bcrypt (fresh_process []) = (Returns (Some 0%nat), w')
      ∧ admin_rows (content (authPath example_config) w') = [row]
      ∧ field (content (authPath example_config) w') "usuario_sistema" "senha_hash" row
        = Some (VText "$2a$10$admin123").
Proof.
  assert (Hq : quiet (faults (fresh_process []))) by constructor.
  assert (Hav : hashing_available example_bcrypt).
  { eexists. split; [reflexivity|]. intros salt. by eexists. }
  split; [split; [reflexivity | split; [reflexivity | split; [exact Hq | exact Hav]]]|].
  destruct (proj1 (default_administrator example_config example_bcrypt)
              (fresh_process []) eq_refl eq_refl Hq Hav)
    as (w' & hash & row & Hget & (bc & salt & Hbc & Hhash) & _ & Hrows & _ & Hf & _).
  exists w', row. split; [exact Hget|]. split; [exact Hrows|].
  injection Hbc as <-. injection Hhash as <-. exact Hf.
Defined.

(** *** A second bootstrap *)

Lemma auth_tables_insert_any fk t hash now :
  exec_stmt fk now (insert_admin hash) (auth_tables t) = Returns (auth_seeded t hash now).
Proof. destruct fk; vm_cast_no_check (eq_refl (Returns (auth_seeded t hash now))). Qed.

Lemma op_cases d t fs :
  (∃ e fs', op (d, t, fs) = (Throws e, (d, S t, fs')))
  ∨ (∃ fs', op (d, t, fs) = (Returns tt, (d, S t, fs'))).
Proof. destruct fs as [|[e|] fs]; cbn; eauto. Qed.

Lemma seed_on_tables bcryptjs fk t t' fs :
  (seed bcryptjs fk (auth_tables t, t', fs)).2.1.1 = auth_tables t
  ∨ ∃ hash now, (seed bcryptjs fk (auth_tables t, t', fs)).2.1.1 = auth_seeded t hash now.
Proof.
  unfold seed. destruct bcryptjs as [bc|e]; [|by left].
  destruct (op_cases (auth_tables t) t' fs) as [(e & fs1 & ->)|(fs1 & ->)]; [by left|].
  rewrite auth_tables_names by auto.
  destruct (op_cases (auth_tables t) (S t') fs1) as [(e & fs2 & ->)|(fs2 & ->)]; [by left|].
  rewrite auth_tables_select.
  destruct (bc _ _ _) as [hash|e]; [|by left].
  destruct (op_cases (auth_tables t) (S (S t')) fs2) as [(e & fs3 & ->)|(fs3 & ->)];
    [by left|].
  rewrite auth_tables_names by auto.
  unfold step.
  destruct (op_cases (auth_tables t) (S (S (S t'))) fs3) as [(e & fs4 & ->)|(fs4 & ->)];
    [by left|].
  fold (insert_admin hash). rewrite auth_tables_insert_any.
  right. exists hash, (S (S (S (S t')))). reflexivity.
Qed.

Lemma bootstrapped_auth bcryptjs t :
  bootstrapped bcryptjs Auth t = auth_tables t
  ∨ ∃ hash, bootstrapped bcryptjs Auth t = auth_seeded t hash (37 + t).
Proof.
  unfold bootstrapped. rewrite boot_auth_fresh.
  destruct bcryptjs as [bc|e]; [|by left].
  destruct (bc _ _ _) as [hash|e]; [right; by exists hash | by left].
Qed.

Lemma bootstrapped_settled bcryptjs s t :
  settled (concat (calls_of s)) (bootstrapped bcryptjs s t).
Proof.
  destruct s; cbn [calls_of].
  - apply core_settled.
  - destruct (bootstrapped_auth bcryptjs t) as [->|[hash ->]].
    + apply auth_tables_settled.
    + apply auth_seeded_settled.
  - apply audit_settled.
Qed.

(** A bootstrap run on the file a first bootstrap left, by any connection
    and whatever the engine does: nothing changes, except that the
    administrator may be inserted when it was not. *)
Lemma boot_again bcryptjs bcryptjs' s fk t t' fs :
  let d := bootstrapped bcryptjs s t in
  let d' := (boot bcryptjs' s fk (d, t', fs)).2.1.1 in
  (s ≠ Auth → d' = d)
  ∧ (admin_rows d ≠ [] → d' = d)
  ∧ grupo_rows d' = grupo_rows d
  ∧ (s = Auth → (length (admin_rows d') ≤ 1)%nat).
Proof.
  intros d d'. subst d'. unfold boot.
  assert (Hone : s = Auth → (length (admin_rows d) ≤ 1)%nat).
  { intros ->. subst d. destruct (bootstrapped_auth bcryptjs t) as [->|[hash ->]].
    - rewrite auth_tables_admin_rows. cbn. lia.
    - rewrite auth_seeded_admin_rows. cbn. lia. }
  pose proof (run_settled fk _ d (bootstrapped_settled bcryptjs s t) t' fs) as Hrun.
  destruct (run fk _ _) as [[[]|e] [[d1 t1] fs1]]; cbn [fst snd] in *; subst d1.
  2: { split; [reflexivity|]. split; [reflexivity|]. split; [reflexivity | exact Hone]. }
  destruct s; cbn [fst snd];
    [ split; [reflexivity|]; split; [reflexivity|]; split; [reflexivity | exact Hone]
    | | split; [reflexivity|]; split; [reflexivity|]; split; [reflexivity | exact Hone] ].
  destruct (seed bcryptjs' fk (d, t1, fs1)) as [entries [[d2 t2] fs2]] eqn:Hseed.
  cbn [fst snd]. subst d.
  destruct (bootstrapped_auth bcryptjs t) as [Hd|[hash Hd]]; rewrite Hd in *.
  - pose proof (seed_on_tables bcryptjs' fk t t1 fs1) as Hs. rewrite Hseed in Hs.
    cbn [fst snd] in Hs. split; [intros H; destruct (H eq_refl)|].
    split; [rewrite auth_tables_admin_rows; intros H; destruct (H eq_refl)|].
    destruct Hs as [->|(hash & now & ->)]; [split; [reflexivity | exact Hone]|].
    rewrite auth_seeded_grupo_rows, auth_seeded_admin_rows. split; [reflexivity|].
    intros _. cbn. lia.
  - assert (Hs := seed_keeps_admin bcryptjs' fk (auth_seeded t hash (37 + t)) t1 fs1).
    rewrite Hseed, auth_seeded_select in Hs. cbn [fst snd] in Hs.
    rewrite Hs by (by eexists).
    split; [reflexivity|]. split; [reflexivity|]. split; [reflexivity | exact Hone].
Qed.

Lemma bootstrapped_seed_rows bcryptjs s t :
  Forall (λ rows, length rows = 1%nat) (seed_rows s (bootstrapped bcryptjs s t)).
Proof.
  destruct s; cbn [seed_rows].
  - rewrite core_filial_rows, core_tema_rows. by repeat apply Forall_cons_2.
  - destruct (bootstrapped_auth bcryptjs t) as [->|[hash ->]];
      rewrite ?auth_seeded_grupo_rows, auth_tables_grupo_rows; by repeat apply Forall_cons_2.
  - apply Forall_nil_2.
Qed.

Lemma bootstrapped_auth_rows bcryptjs t :
  is_Some (db_tables (bootstrapped bcryptjs Auth t) !! "urls_autorizadas")
  ∧ (length (admin_rows (bootstrapped bcryptjs Auth t)) ≤ 1)%nat
  ∧ (hashing_available bcryptjs →
     length (admin_rows (bootstrapped bcryptjs Auth t)) = 1%nat).
Proof.
  assert (Hurls : ∀ hash now,
    bool_decide (is_Some (db_tables (auth_seeded t hash now) !! "urls_autorizadas")) = true).
  { intros. vm_cast_no_check (eq_refl true). }
  split; [|split].
  - destruct (bootstrapped_auth bcryptjs t) as [->|[hash ->]].
    + apply auth_tables_has_tables.
      refine (proj1 (bool_decide_eq_true _) _). vm_cast_no_check (eq_refl true).
    + exact (proj1 (bool_decide_eq_true _) (Hurls hash _)).
  - destruct (bootstrapped_auth bcryptjs t) as [->|[hash ->]].
    + rewrite auth_tables_admin_rows. cbn. lia.
    + rewrite auth_seeded_admin_rows. cbn. lia.
  - intros Hav. destruct (boot_auth_available bcryptjs t Hav) as (hash & _ & _ & ->).
    by rewrite auth_seeded_admin_rows.
Qed.

(** C8. On a fresh store, with an engine that does not fail, the getter
    returns and the file holds each default row once: the branch
    "Principal" and the theme for the core store, the group "Admin" for the
    security store, with its table of authorised origins, and the user
    "admin" when the hashing capability answers. A bootstrap run again on
    that file, through any open connection and whatever the engine does,
    leaves these rows as they are; it leaves the whole file as it is,
    except that it may insert the user "admin" when the first run could
    not, and never a second one. *)
Theorem default_rows_are_inserted_once cfg bcryptjs s w :
  cached s w = None →
  content (store_path cfg s) w = empty_database →
  quiet (faults w) →
  ∃ w1, getStore cfg bcryptjs s w = (Returns (Some (length (conns w))), w1)
    ∧ Forall (λ rows, length rows = 1%nat) (seed_rows s (content (store_path cfg s) w1))
    ∧ (s = Auth →
       is_Some (db_tables (content (store_path cfg s) w1) !! "urls_autorizadas")
       ∧ (length (admin_rows (content (store_path cfg s) w1)) ≤ 1)%nat
       ∧ (hashing_available bcryptjs →
          length (admin_rows (content (store_path cfg s) w1)) = 1%nat))
    ∧ ∀ bcryptjs' db c w1' r w2,
        content (store_path cfg s) w1' = content (store_path cfg s) w1 →
        conns w1' !! db = Some c → conn_open c = true → conn_path c = store_path cfg s →
        ensureTables bcryptjs' s db w1' = (r, w2) →
        seed_rows s (content (store_path cfg s) w2)
        = seed_rows s (content (store_path cfg s) w1)
        ∧ (s ≠ Auth ∨ admin_rows (content (store_path cfg s) w1) ≠ [] →
           content (store_path cfg s) w2 = content (store_path cfg s) w1)
        ∧ (s = Auth → (length (admin_rows (content (store_path cfg s) w2)) ≤ 1)%nat).
Proof.
  intros Hc Hempty Hq.
  destruct (getStore_fresh cfg bcryptjs s w Hc Hempty Hq)
    as (w1 & Hget & _ & _ & _ & _ & Hcontent & _).
  exists w1. rewrite Hcontent. split; [exact Hget|].
  split; [apply bootstrapped_seed_rows|].
  split; [intros ->; apply bootstrapped_auth_rows|].
  intros bcryptjs' db c w1' r w2 Hsame Hconn Hopen Hpath Hrun.
  destruct (ensureTables_run bcryptjs' s db c w1' Hconn Hopen) as (w2' & Hrun' & _ & _ & Hst).
  rewrite Hrun in Hrun'. injection Hrun' as _ <-.
  rewrite Hpath in Hst. unfold estate in Hst. rewrite Hsame in Hst.
  destruct (boot_again bcryptjs bcryptjs' s (foreign_keys c) (6 + clock w)
              (clock w1') (faults w1')) as (Hother & Hadmin & Hgrupo & Hone).
  rewrite <- Hst in Hother, Hadmin, Hgrupo, Hone. cbn [fst snd] in *.
  split; [|split].
  - destruct s; cbn [seed_rows].
    + by rewrite Hother.
    + by rewrite Hgrupo.
    + reflexivity.
  - intros [Hs|Hrows]; [exact (Hother Hs) | exact (Hadmin Hrows)].
  - exact Hone.
Qed.

Lemma default_rows_are_inserted_once_witness :
  (cached Core (fresh_process []) = None
   ∧ content (store_path example_config Core) (fresh_process []) = empty_database
   ∧ quiet (faults (fresh_process [])))
  ∧ ∃ w1, getStore example_config example_bcrypt Core (fresh_process [])
          = (Returns (Some 0%nat), w1)
          ∧ Forall (λ rows, length rows = 1%nat)
              (seed_rows Core (content (store_path example_config Core) w1)).
Proof.
  assert (Hq : quiet (faults (fresh_process []))) by constructor.
  split; [split; [reflexivity | split; [reflexivity | exact Hq]]|].
  destruct (default_rows_are_inserted_once example_config example_bcrypt Core
              (fresh_process []) eq_refl eq_refl Hq) as (w1 & Hget & Hrows & _).
  exists w1. split; [exact Hget | exact Hrows].
Defined.

(** ** Closing *)

Lemma closing_refl w : closing w w.
Proof. by repeat split. Qed.

Lemma closing_trans w1 w2 w3 : closing w1 w2 → closing w2 w3 → closing w1 w3.
Proof.
  intros (?&?&?&?&H12&C12) (?&?&?&?&H23&C23).
  repeat split; try congruence; auto.
Qed.

Lemma db_close_spec db w :
  closing w (db_close db w).2
  ∧ ((db < length (conns w))%nat → closed_at db (db_close db w).2)
  ∧ (∀ s, cached s (db_close db w).2 = cached s w)
  ∧ logged (db_close db w).2 = logged w.
Proof.
  unfold db_close, modify. cbn [snd].
  destruct (conns w !! db) as [c|] eqn:Hc.
  - assert (Hlt : (db < length (conns w))%nat) by (by eapply lookup_lt_Some).
    split; [|split; [|split]].
    + unfold closing, set_conns. fields. rewrite length_insert.
      split; [reflexivity|]. split; [reflexivity|]. split; [reflexivity|].
      split; [reflexivity|]. split; [|by intros []].
      intros h (c' & Hc' & Hclosed). unfold closed_at. fields.
      destruct (decide (db = h)) as [->|Hne].
      * rewrite list_lookup_insert_eq by done. by eexists.
      * rewrite list_lookup_insert_ne by done. by eexists.
    + intros _. unfold closed_at, set_conns. fields.
      rewrite list_lookup_insert_eq by done. by eexists.
    + by intros [].
    + done.
  - split; [apply closing_refl|]. split; [|done].
    intros Hlt. apply lookup_ge_None in Hc. lia.
Qed.

Lemma close_block (s : store) w :
  (c ← read (cached s);
   match c with
   | Some db =>
       db_close db;; modify (set_cached s None);; logger INFO (lg_message (closed_entry s)) []
   | None => mret tt
   end) w
  = (Returns tt, close_one s w).
Proof.
  unfold close_one, mbind, M_bind, mret, M_ret, read, modify, logger.
  destruct (cached s w) as [db|]; [|done].
  unfold db_close, modify. cbn [fst snd]. by destruct s.
Qed.

Lemma closeAll_unfold w :
  closeAll w = (Returns tt, close_one Audit (close_one Auth (close_one Core w))).
Proof.
  pose (blk := λ s : store,
    c ← read (cached s);
    match c with
    | Some db =>
        db_close db;; modify (set_cached s None);;
        logger INFO (lg_message (closed_entry s)) []
    | None => mret tt
    end).
  assert (Hbind : ∀ s (k : unit → M unit) w,
             (blk s ≫= k) w = k tt (close_one s w)).
  { intros s k w0. unfold mbind at 1. unfold M_bind at 1.
    unfold blk. by rewrite close_block. }
  transitivity ((blk Core ≫= λ _, blk Auth ≫= λ _, blk Audit) w); [reflexivity|].
  rewrite Hbind, Hbind. apply close_block.
Qed.

Lemma close_one_spec s w :
  closing w (close_one s w)
  ∧ cached s (close_one s w) = None
  ∧ (∀ s', s' ≠ s → cached s' (close_one s w) = cached s' w)
  ∧ (∀ db, cached s w = Some db → (db < length (conns w))%nat →
           closed_at db (close_one s w))
  ∧ logged (close_one s w)
    = logged w ++ match cached s w with Some _ => [closed_entry s] | None => [] end.
Proof.
  unfold close_one. destruct (cached s w) as [db|] eqn:Hc.
  - destruct (db_close_spec db w) as (Hclosing & Hclosed & Hcached & Hlog).
    set (w1 := (db_close db w).2) in *.
    split; [|split; [|split; [|split]]].
    + eapply closing_trans; [exact Hclosing|].
      unfold closing. destruct s; cbn; repeat split; try done; by intros [].
    + by destruct s.
    + intros s' Hne. rewrite <- Hcached. by destruct s, s'.
    + intros ? [= <-] Hlt. destruct (Hclosed Hlt) as (c & Hcc & Hcl).
      exists c. by destruct s.
    + rewrite <- Hlog. by destruct s.
  - rewrite app_nil_r. split; [apply closing_refl|]. repeat split; try done.
Qed.

Lemma closeAll_spec w :
  ∃ w', closeAll w = (Returns tt, w')
        ∧ (∀ s, cached s w' = None)
        ∧ closing w w'
        ∧ (∀ s db, cached s w = Some db → (db < length (conns w))%nat → closed_at db w').
Proof.
  rewrite closeAll_unfold. eexists. split; [reflexivity|].
  destruct (close_one_spec Core w) as (C1 & N1 & O1 & D1 & _).
  set (w1 := close_one Core w) in *.
  destruct (close_one_spec Auth w1) as (C2 & N2 & O2 & D2 & _).
  set (w2 := close_one Auth w1) in *.
  destruct (close_one_spec Audit w2) as (C3 & N3 & O3 & D3 & _).
  set (w3 := close_one Audit w2) in *.
  assert (L1 : length (conns w1) = length (conns w)) by apply C1.
  assert (L2 : length (conns w2) = length (conns w1)) by apply C2.
  split; [|split].
  - intros [].
    + apply C3, C2, N1.
    + apply C3, N2.
    + exact N3.
  - eauto using closing_trans.
  - intros s db Hs Hlt. destruct s.
    + apply C3, C2, D1; done.
    + apply C3, D2; [by rewrite O1 | lia].
    + apply D3; [by rewrite O2, O1 | lia].
Qed.

Lemma closeAll_nothing_open w :
  (∀ s, cached s w = None) → closeAll w = (Returns tt, w).
Proof.
  intros H. rewrite closeAll_unfold. unfold close_one.
  by rewrite (H Core), (H Auth), (H Audit).
Qed.

Lemma run_settled_returns fk ss d :
  settled ss d → ∀ t fs, quiet fs → (run fk ss (d, t, fs)).1 = Returns tt.
Proof.
  induction 1 as [|s ss Hs _ IH]; intros t fs Hq; [done|].
  cbn [run]. unfold step.
  destruct fs as [|[e|] fs]; cbn [op].
  - rewrite Hs. by apply IH.
  - by apply quiet_inv in Hq as [? _].
  - apply quiet_inv in Hq as [_ Hq]. rewrite Hs. by apply IH.
Qed.

Lemma boot_again_returns bcryptjs bcryptjs' s fk t t' fs :
  quiet fs → (boot bcryptjs' s fk (bootstrapped bcryptjs s t, t', fs)).1.1 = Returns tt.
Proof.
  intros Hq. unfold boot.
  pose proof (run_settled_returns fk _ _ (bootstrapped_settled bcryptjs s t) t' fs Hq) as Hr.
  destruct (run fk _ _) as [r st]. cbn [fst] in Hr. subst r.
  destruct s; try done. by destruct (seed _ _ _).
Qed.

Lemma close_one_bootstraps s s' w : bootstraps s (close_one s' w) = bootstraps s w.
Proof.
  destruct (close_one_spec s' w) as (_ & _ & _ & _ & Hlog).
  rewrite (bootstraps_app s w _ _ Hlog).
  destruct (cached s' w); [|cbn; lia].
  rewrite filter_cons.
  assert (closes_bootstrap s (closed_entry s') = false) as ->
    by (by destruct s, s').
  destruct (decide (false = true)); [done|]. rewrite filter_nil. cbn. lia.
Qed.

Lemma closeAll_bootstraps s w : bootstraps s (closeAll w).2 = bootstraps s w.
Proof. rewrite closeAll_unfold. cbn [snd]. by rewrite !close_one_bootstraps. Qed.

(** C9. [closeAll] returns; afterwards the three variables are empty, every
    connection they held is closed and the files are what they were. With
    nothing open it changes nothing, so a second [closeAll] changes
    nothing. A getter called after [closeAll] on a store that had been
    bootstrapped opens a new connection, leaves the old one closed, runs the
    bootstrap again and keeps each default row as it was, once. *)
Theorem closeAll_closes_and_forgets cfg bcryptjs :
  (∀ w, ∃ w',
      closeAll w = (Returns tt, w')
      ∧ (∀ s, cached s w' = None)
      ∧ files w' = files w
      ∧ (∀ s db, cached s w = Some db → (db < length (conns w))%nat → closed_at db w')
      ∧ closeAll w' = (Returns tt, w'))
  ∧ (∀ w, (∀ s, cached s w = None) → closeAll w = (Returns tt, w))
  ∧ (∀ s w,
      cached s w = None →
      content (store_path cfg s) w = empty_database →
      quiet (faults w) →
      ∃ w1 w2 w3,
        getStore cfg bcryptjs s w = (Returns (Some (length (conns w))), w1)
        ∧ closeAll w1 = (Returns tt, w2)
        ∧ getStore cfg bcryptjs s w2 = (Returns (Some (S (length (conns w)))), w3)
        ∧ closed_at (length (conns w)) w3
        ∧ conns w3 !! S (length (conns w)) = Some (opened cfg (store_path cfg s))
        ∧ bootstraps s w3 = S (S (bootstraps s w))
        ∧ seed_rows s (content (store_path cfg s) w3)
          = seed_rows s (content (store_path cfg s) w1)
        ∧ Forall (λ rows, length rows = 1%nat)
            (seed_rows s (content (store_path cfg s) w3))
        ∧ (s ≠ Auth ∨ admin_rows (content (store_path cfg s) w1) ≠ [] →
           content (store_path cfg s) w3 = content (store_path cfg s) w1)
        ∧ (s = Auth → (length (admin_rows (content (store_path cfg s) w3)) ≤ 1)%nat)).
Proof.
  split; [|split].
  - intros w. destruct (closeAll_spec w) as (w' & Hrun & Hnone & Hclosing & Hclosed).
    exists w'. split; [exact Hrun|]. split; [exact Hnone|].
    split; [apply Hclosing|]. split; [exact Hclosed|].
    by apply closeAll_nothing_open.
  - apply closeAll_nothing_open.
  - intros s w Hc Hempty Hq.
    destruct (getStore_fresh cfg bcryptjs s w Hc Hempty Hq)
      as (w1 & Hget & Hnew & _ & Hlog1 & Hcs & Hcontent & Hq1).
    destruct (closeAll_spec w1) as (w2 & Hclose & Hnone & Hclosing & Hclosed).
    destruct Hclosing as (Hfiles & Hfaults & Hclock & Hlen & Hkeep & _).
    assert (Hlen1 : length (conns w1) = S (length (conns w))).
    { rewrite Hcs, length_app. cbn. lia. }
    assert (Hd2 : content (store_path cfg s) w2 = bootstrapped bcryptjs s (6 + clock w)).
    { unfold content. rewrite Hfiles. exact Hcontent. }
    destruct (getStore_cold cfg bcryptjs s w2 (Hnone s))
      as [(k&e&rest&w'&_&Hf&_)|(_&w3&Hget3&Hnew3&_&Hlog3&Hcs3&Hst3&_)].
    { rewrite <- Hfaults, Hf in Hq1. by apply quiet_not_fault in Hq1. }
    rewrite Hd2 in Hget3, Hlog3, Hst3.
    assert (Hq6 : quiet (drop 6 (faults w2))) by (rewrite Hfaults; by apply Forall_drop).
    pose proof (boot_again_returns bcryptjs bcryptjs s true (6 + clock w)
                  (6 + clock w2) (drop 6 (faults w2)) Hq6) as Hret.
    destruct (boot_again bcryptjs bcryptjs s true (6 + clock w)
                (6 + clock w2) (drop 6 (faults w2))) as (Hother & Hadmin & Hgrupo & Hone).
    rewrite Hret in Hget3. rewrite Hlen, Hlen1 in Hget3.
    unfold estate in Hst3. rewrite <- Hst3 in Hother, Hadmin, Hgrupo, Hone.
    cbn [fst snd] in *.
    assert (Hrows : seed_rows s (content (store_path cfg s) w3)
                    = seed_rows s (content (store_path cfg s) w1)).
    { rewrite Hcontent. destruct s; cbn [seed_rows].
      - by rewrite Hother.
      - by rewrite Hgrupo.
      - reflexivity. }
    exists w1, w2, w3. split; [exact Hget|]. split; [exact Hclose|].
    split; [exact Hget3|].
    split.
    { destruct (Hclosed s (length (conns w)) Hnew) as (c & Hcc & Hcl); [lia|].
      exists c. split; [|exact Hcl]. rewrite Hcs3.
      rewrite lookup_app_l; [exact Hcc|]. by eapply lookup_lt_Some. }
    split.
    { rewrite Hcs3, <- Hlen1, <- Hlen. apply lookup_last. }
    split.
    { rewrite (bootstraps_app s w2 w3 _ Hlog3), filter_cons, connected_plain.
      destruct (decide (false = true)); [done|].
      rewrite boot_entries_count. destruct (decide (s = s)); [|done].
      assert (bootstraps s w2 = bootstraps s w1) as ->.
      { pose proof (closeAll_bootstraps s w1) as Hb. by rewrite Hclose in Hb. }
      rewrite (bootstraps_app s w w1 _ Hlog1), filter_cons, connected_plain.
      destruct (decide (false = true)); [done|].
      rewrite boot_entries_count. destruct (decide (s = s)); [lia|done]. }
    split; [exact Hrows|].
    split; [rewrite Hrows, Hcontent; apply bootstrapped_seed_rows|].
    split; [|exact Hone].
    rewrite Hcontent. intros [Hs|Hr]; [exact (Hother Hs) | exact (Hadmin Hr)].
Qed.

Lemma closeAll_closes_and_forgets_witness :
  (cached Auth (fresh_process []) = None
   ∧ content (store_path example_config Auth) (fresh_process []) = empty_database
   ∧ quiet (faults (fresh_process [])))
  ∧ ∃ w1 w2 w3,
      getStore example_config example_bcrypt Auth (fresh_process [])
      = (Returns (Some 0%nat), w1)
      ∧ closeAll w1 = (Returns tt, w2)
      ∧ getStore example_config example_bcrypt Auth w2 = (Returns (Some 1%nat), w3)
      ∧ content (store_path example_config Auth) w3
        = content (store_path example_config Auth) w1.
Proof.
  assert (Hq : quiet (faults (fresh_process []))) by constructor.
  split; [split; [reflexivity | split; [reflexivity | exact Hq]]|].
  destruct (proj2 (proj2 (closeAll_closes_and_forgets example_config example_bcrypt))
              Auth (fresh_process []) eq_refl eq_refl Hq)
    as (w1 & w2 & w3 & Hget & Hclose & Hget3 & _ & _ & _ & _ & _ & Hsame & _).
  exists w1, w2, w3. split; [exact Hget|]. split; [exact Hclose|]. split; [exact Hget3|].
  apply Hsame. right.
  destruct (default_rows_are_inserted_once example_config example_bcrypt Auth
              (fresh_process []) eq_refl eq_refl Hq) as (w1' & Hget' & _ & Hauth & _).
  rewrite Hget in Hget'. injection Hget' as <-.
  destruct (Hauth eq_refl) as (_ & _ & Hone).
  intros Hnil. rewrite Hnil in Hone. 
  assert (Hav : hashing_available example_bcrypt).
  { eexists. split; [reflexivity|]. intros salt. by eexists. }
  specialize (Hone Hav). discriminate.
Defined.
(** * Further properties *)

(** ** Names in the bootstrap sequences *)

Lemma declared_app (l1 l2 : list stmt) :
  Names.declared (l1 ++ l2) = Names.declared l1 ++ Names.declared l2.
Proof. unfold Names.declared. apply omap_app. Qed.

Lemma resolvedb_sound tables s : Names.resolvedb tables s = true → Names.resolved_in tables s.
Proof.
  unfold Names.resolvedb, Names.resolved_in. intros H table cols Hneeds.
  rewrite Hneeds in H. apply bool_decide_eq_true in H.
  apply Exists_exists in H as ([t tcols] & Hin & Ht & Hcols). cbn in *. subst t.
  exists tcols. split; [done|]. by apply Forall_forall.
Qed.

Lemma resolves_sound ss : ∀ seen,
  Names.resolves seen ss = true →
  ∀ pre s post, ss = pre ++ s :: post → Names.resolved_in (seen ++ Names.declared pre) s.
Proof.
  induction ss as [|s0 ss IH]; intros seen Hok pre s post Heq.
  - by destruct pre.
  - cbn [Names.resolves] in Hok. apply andb_prop in Hok as [Hhere Hrest].
    destruct pre as [|s1 pre]; simplify_eq/=.
    + rewrite app_nil_r. by apply resolvedb_sound.
    + specialize (IH _ Hrest pre s post eq_refl).
      rewrite <- app_assoc in IH. by destruct s1.
Qed.

(** X1. In each of the three bootstrap sequences, every CREATE INDEX and every
    INSERT names a table that an earlier statement of the sequence creates,
    and only columns that this table declares. *)
Theorem bootstrap_names_resolve (store : store) pre s post :
  concat (calls_of store) = pre ++ s :: post →
  Names.resolved_in (Names.declared pre) s.
Proof.
  intros Heq.
  assert (Hok : Names.resolves [] (concat (calls_of store)) = true)
    by (destruct store; vm_cast_no_check (eq_refl true)).
  exact (resolves_sound _ [] Hok pre s post Heq).
Qed.

Lemma bootstrap_names_resolve_witness :
  concat (calls_of Audit)
  = take 3 (concat AuditDdl.calls)
    ++ CREATE_INDEX_IF_NOT_EXISTS "idx_audit_data" "audit_log" ["criado_em"] :: []
  ∧ Names.resolved_in (Names.declared (take 3 (concat AuditDdl.calls)))
      (CREATE_INDEX_IF_NOT_EXISTS "idx_audit_data" "audit_log" ["criado_em"]).
Proof.
  split; [reflexivity|].
  exact (bootstrap_names_resolve Audit (take 3 (concat AuditDdl.calls))
           (CREATE_INDEX_IF_NOT_EXISTS "idx_audit_data" "audit_log" ["criado_em"]) []
           eq_refl).
Defined.

(** X2. In the sequences of [ensureAuthTables] and [ensureAuditTables] every
    table named in a FOREIGN KEY clause is created earlier in the sequence:
    unlike the core sequence, they have no forward reference. *)
Theorem auth_and_audit_referents_first (store : store) pre s post parent :
  store ≠ Core →
  concat (calls_of store) = pre ++ s :: post →
  parent ∈ Order.references s →
  parent ∈ Order.created pre.
Proof.
  intros Hstore Heq Hin.
  assert (Hok : Order.ordered (λ _ _, false) [] (concat (calls_of store)) = true).
  { destruct store; [done| |]; vm_cast_no_check (eq_refl true). }
  exact (ordered_sound _ _ [] Hok pre s post parent Heq Hin).
Qed.

Lemma auth_and_audit_referents_first_witness :
  (Auth ≠ Core
   ∧ concat (calls_of Auth)
     = take 2 (concat AuthDdl.calls)
       ++ default (INSERT_OR_IGNORE "" [] []) (head AuthDdl.grupo_permissao)
          :: drop 3 (concat AuthDdl.calls)
   ∧ "permissao" ∈ Order.references
                     (default (INSERT_OR_IGNORE "" [] []) (head AuthDdl.grupo_permissao)))
  ∧ "permissao" ∈ Order.created (take 2 (concat AuthDdl.calls)).
Proof.
  assert (Hne : Auth ≠ Core) by discriminate.
  assert (Hin : "permissao" ∈ Order.references
                  (default (INSERT_OR_IGNORE "" [] []) (head AuthDdl.grupo_permissao)))
    by (refine (proj1 (bool_decide_eq_true _) _); reflexivity).
  split; [split; [exact Hne | split; [reflexivity | exact Hin]]|].
  exact (auth_and_audit_referents_first Auth (take 2 (concat AuthDdl.calls))
           (default (INSERT_OR_IGNORE "" [] []) (head AuthDdl.grupo_permissao))
           (drop 3 (concat AuthDdl.calls)) "permissao" Hne eq_refl Hin).
Defined.

(** X3. No bootstrap sequence creates a table twice or an index twice: inside
    one bootstrap IF NOT EXISTS never skips a second definition. *)
Theorem bootstrap_names_are_unique (store : store) :
  NoDup (Order.created (concat (calls_of store)))
  ∧ NoDup (Names.indexes (concat (calls_of store))).
Proof.
  assert (H : bool_decide (NoDup (Order.created (concat (calls_of store)))
                           ∧ NoDup (Names.indexes (concat (calls_of store)))) = true)
    by (destruct store; vm_cast_no_check (eq_refl true)).
  by apply bool_decide_eq_true in H.
Qed.

(** ** Foreign keys *)

(** X4. Every FOREIGN KEY clause of the three bootstrap sequences names a
    column of the table that carries it, and refers to a table created by
    the sequence of the same store, by a column that is a key of that table
    (PRIMARY KEY or UNIQUE): no reference crosses from one store's file to
    another's, and none is a mismatch for the engine. *)
Theorem foreign_keys_name_keys (store : store) s k :
  s ∈ concat (calls_of store) →
  k ∈ fk_clauses s →
  k_col k ∈ c_name <$> k_columns k
  ∧ ∃ p, p ∈ concat (calls_of store) ∧ is_key (k_parent k) (k_pcol k) p = true.
Proof.
  intros Hs Hk.
  assert (Hall : forallb (λ s, forallb (clause_ok (concat (calls_of store))) (fk_clauses s))
                   (concat (calls_of store)) = true)
    by (destruct store; vm_cast_no_check (eq_refl true)).
  apply Is_true_true_2, forallb_True in Hall. rewrite Forall_forall in Hall.
  specialize (Hall s Hs). apply forallb_True in Hall. rewrite Forall_forall in Hall.
  specialize (Hall k Hk). unfold clause_ok in Hall.
  apply andb_prop_elim in Hall as [Hcol Hkey]. split.
  - by apply bool_decide_unpack in Hcol.
  - apply Is_true_true_1, existsb_exists in Hkey as (p&Hp&Hkey).
    exists p. split; [by apply list_elem_of_In|done].
Qed.

Lemma foreign_keys_name_keys_witness :
  "grupo_id" ∈ ["grupo_id"; "permissao_id"]
  ∧ ∃ p, p ∈ concat (calls_of Auth) ∧ is_key "grupo_acesso" "id" p = true.
Proof.
  apply (foreign_keys_name_keys Auth
           (CREATE_TABLE_IF_NOT_EXISTS "grupo_permissao"
              [Col "grupo_id" INTEGER [NOT_NULL]; Col "permissao_id" INTEGER [NOT_NULL]]
              [PRIMARY_KEY_OF ["grupo_id"; "permissao_id"];
               FOREIGN_KEY "grupo_id" "grupo_acesso" "id" CASCADE;
               FOREIGN_KEY "permissao_id" "permissao" "id" CASCADE])
           (Clause [Col "grupo_id" INTEGER [NOT_NULL]; Col "permissao_id" INTEGER [NOT_NULL]]
              "grupo_id" "grupo_acesso" "id")).
  - apply (list_elem_of_lookup_2 _ 2%nat). reflexivity.
  - apply (list_elem_of_lookup_2 _ 0%nat). reflexivity.
Defined.

(** ** [initDatabase] *)

(** When [initDatabase] throws, the connection it had opened, if any, is
    left open in the engine with the directives applied so far. *)
Lemma initDatabase_conns cfg path name w :
  (∃ (k : nat) e rest w',
      (k ≤ 5)%nat ∧ faults w = replicate k None ++ Some e :: rest
      ∧ initDatabase cfg path name w = (Throws e, w')
      ∧ conns w' = conns w ++ match k with
                              | O => []
                              | S n => [half_configured cfg path n]
                              end)
  ∨ (∃ h w', initDatabase cfg path name w = (Returns h, w')).
Proof.
  destruct w as [c a u lg cs fs t fl].
  unfold initDatabase, new_Database, db_pragma, operation, connected, half_configured.
  unfold_m.
  destruct fl as [|[e|] fl]; [ right; finish_open | left; exists 0%nat, e, fl; finish_open | destruct fl as [|[e|] fl]; [ right; finish_open | left; exists 1%nat, e, fl; finish_open | destruct fl as [|[e|] fl]; [ right; finish_open | left; exists 2%nat, e, fl; finish_open | destruct fl as [|[e|] fl]; [ right; finish_open | left; exists 3%nat, e, fl; finish_open | destruct fl as [|[e|] fl]; [ right; finish_open | left; exists 4%nat, e, fl; finish_open | destruct fl as [|[e|] fl]; [ right; finish_open | left; exists 5%nat, e, fl; finish_open | right; finish_open ] ] ] ] ] ].
  all: first [by eexists | by eexists _, _ | symmetry; apply app_nil_r | idtac].
Qed.

(** X5. When [initDatabase] returns, the handle is a new one, its
    connection is open on the path given, in verbose mode exactly in a
    development environment, with the five directives applied in the order
    of the source, foreign keys among them; one entry went to the log; no
    variable of the module and no content of a file has changed. *)
Theorem initDatabase_configures cfg path name w db w' :
  initDatabase cfg path name w = (Returns db, w') →
  db = length (conns w)
  ∧ conns w' = conns w ++ [Connection path (bool_decide (env cfg = "development")) true
                              directives false]
  ∧ foreign_keys (Connection path (bool_decide (env cfg = "development")) true
                    directives false) = true
  ∧ logged w' = logged w ++ [connected_entry name path]
  ∧ (∀ s, cached s w' = cached s w)
  ∧ (∀ q, content q w' = content q w).
Proof.
  intros Hinit.
  destruct (initDatabase_cases cfg path name w)
    as [(k&e&rest&w1&_&_&Hthrow&_)|(w1&Hret&Hc&Ha&Hu&Hlog&Hcs&_&_&_&Hcont)]; [congruence|].
  rewrite Hinit in Hret. injection Hret as -> <-.
  split; [done|]. split; [exact Hcs|]. split; [reflexivity|]. split; [exact Hlog|].
  split; [by intros []|exact Hcont].
Qed.

Lemma initDatabase_configures_witness :
  0%nat = length (conns (fresh_process []))
  ∧ conns (initDatabase example_config "data/core.db" "core" (fresh_process [])).2
    = conns (fresh_process []) ++ [Connection "data/core.db" false true directives false].
Proof.
  destruct (initDatabase_configures example_config "data/core.db" "core" (fresh_process [])
              0%nat (initDatabase example_config "data/core.db" "core" (fresh_process [])).2)
    as (H1&H2&_).
  - apply pair_eta_fst. vm_cast_no_check (eq_refl (Returns 0%nat)).
  - split; [exact H1|exact H2].
Defined.

(** ** A connection that nobody holds *)

Lemma getStore_open_failure cfg bcryptjs s w e w' :
  cached s w = None →
  initDatabase cfg (store_path cfg s) (store_name s) w = (Throws e, w') →
  getStore cfg bcryptjs s w = (Throws e, w').
Proof.
  intros Hc Hinit. destruct s; cbn [cached store_path store_name] in *;
    unfold getStore, getCore, getAuth, getAudit, mbind, M_bind, read;
    by rewrite Hc, Hinit.
Qed.

Lemma db_close_other db w h : h ≠ db → conns (db_close db w).2 !! h = conns w !! h.
Proof.
  intros Hne. unfold db_close, modify. cbn [snd].
  destruct (conns w !! db); [|done]. cbn. by rewrite list_lookup_insert_ne.
Qed.

Lemma close_one_other s w h :
  cached s w ≠ Some h → conns (close_one s w) !! h = conns w !! h.
Proof.
  intros Hne. unfold close_one. destruct (cached s w) as [db|] eqn:Hc; [|done].
  destruct s; cbn [set_cached]; unfold set_logged, set_coreDb, set_authDb, set_auditDb;
    cbn [conns]; apply db_close_other; congruence.
Qed.

(** [closeAll] leaves alone the connections that no variable holds. *)
Lemma closeAll_other w h :
  (∀ s, cached s w ≠ Some h) → conns (closeAll w).2 !! h = conns w !! h.
Proof.
  intros Hne. rewrite closeAll_unfold. cbn [snd].
  pose proof (close_one_spec Core w) as (_&_&Hcore&_).
  pose proof (close_one_spec Auth (close_one Core w)) as (_&_&Hauth&_).
  rewrite close_one_other, close_one_other, close_one_other; [done|apply Hne|..].
  - rewrite Hcore by done. apply Hne.
  - rewrite Hauth, Hcore by done. apply Hne.
Qed.

(** A getter whose store cannot be opened or configured: what is left. *)
Lemma getStore_open_throws cfg bcryptjs s w (k : nat) e rest :
  cached s w = None →
  (k ≤ 5)%nat →
  faults w = replicate k None ++ Some e :: rest →
  ∃ w', getStore cfg bcryptjs s w = (Throws e, w')
        ∧ (∀ s', cached s' w' = cached s' w)
        ∧ conns w' = conns w ++ match k with
                                | O => []
                                | S n => [half_configured cfg (store_path cfg s) n]
                                end
        ∧ logged w' = logged w ++ [connect_error_entry (store_name s) e]
        ∧ (∀ q, content q w' = content q w)
        ∧ faults w' = rest.
Proof.
  intros Hc Hk Hf.
  destruct (initDatabase_cases cfg (store_path cfg s) (store_name s) w)
    as [(k2&e2&rest2&w2&_&Hf2&Hinit2&Hc2&Ha2&Hu2&Hlog&Hcont&Hfl)
       |(w2&_&_&_&_&_&_&_&_&Hq&_)].
  - rewrite Hf in Hf2. apply first_fault_unique in Hf2 as (<-&<-&<-).
    destruct (initDatabase_conns cfg (store_path cfg s) (store_name s) w)
      as [(k3&e3&rest3&w3&_&Hf3&Hinit3&Hcs)|(h&w3&Hret)]; [|congruence].
    rewrite Hf in Hf3. apply first_fault_unique in Hf3 as (<-&<-&<-).
    rewrite Hinit2 in Hinit3. injection Hinit3 as <-.
    exists w2. split; [by apply getStore_open_failure|].
    split; [by intros []|]. done.
  - rewrite Hf in Hq. exfalso. revert Hq. by apply fault_is_not_quiet.
Qed.

(** X6. When a directive fails after the store was opened, the getter
    throws and the connection stays open in the engine: the catch block of
    [initDatabase] has no handle to close and the variable of the store was
    never assigned. No variable holds the connection, so [closeAll] does
    not close it either. *)
Theorem failed_directive_leaks_the_connection cfg bcryptjs s w (n : nat) e rest :
  cached s w = None →
  handles_valid w →
  (n ≤ 4)%nat →
  faults w = replicate (S n) None ++ Some e :: rest →
  (getStore cfg bcryptjs s w).1 = Throws e
  ∧ (∀ s', cached s' (getStore cfg bcryptjs s w).2 = cached s' w)
  ∧ conns (getStore cfg bcryptjs s w).2
    = conns w ++ [half_configured cfg (store_path cfg s) n]
  ∧ conn_open (half_configured cfg (store_path cfg s) n) = true
  ∧ conns (closeAll (getStore cfg bcryptjs s w).2).2 !! length (conns w)
    = Some (half_configured cfg (store_path cfg s) n).
Proof.
  intros Hc Hvalid Hn Hf.
  destruct (getStore_open_throws cfg bcryptjs s w (S n) e rest Hc ltac:(lia) Hf)
    as (w'&->&Hsame&Hcs&_). cbn [fst snd].
  split; [done|]. split; [exact Hsame|]. split; [exact Hcs|]. split; [reflexivity|].
  rewrite closeAll_other.
  - rewrite Hcs. by apply list_lookup_middle.
  - intros s' Hs'. rewrite Hsame in Hs'. apply Hvalid in Hs'. lia.
Qed.

Lemma failed_directive_leaks_the_connection_witness :
  (getStore example_config example_bcrypt Core
     (fresh_process [None; None; Some disk_full])).1 = Throws disk_full
  ∧ conns (closeAll (getStore example_config example_bcrypt Core
                       (fresh_process [None; None; Some disk_full])).2).2 !! 0%nat
    = Some (half_configured example_config "data/core.db" 1).
Proof.
  destruct (failed_directive_leaks_the_connection example_config example_bcrypt Core
              (fresh_process [None; None; Some disk_full]) 1 disk_full [])
    as (H1&_&_&_&H2).
  - reflexivity.
  - intros s db H. destruct s; discriminate H.
  - lia.
  - reflexivity.
  - split; [exact H1|exact H2].
Defined.

(** X7. A getter call changes nothing that belongs to another store: the
    variables of the other stores keep their handles, every file other than
    the store's own keeps its content, and every connection that existed
    stays as it was (none is closed or reconfigured). *)
Theorem getter_leaves_the_other_stores_alone cfg bcryptjs s w :
  (∀ s', s' ≠ s → cached s' (getStore cfg bcryptjs s w).2 = cached s' w)
  ∧ (∀ q, q ≠ store_path cfg s → content q (getStore cfg bcryptjs s w).2 = content q w)
  ∧ (∀ db c, conns w !! db = Some c → conns (getStore cfg bcryptjs s w).2 !! db = Some c).
Proof.
  destruct (cached s w) as [h|] eqn:Hc.
  { by rewrite (getStore_cached cfg bcryptjs s w h Hc). }
  destruct (getStore_cold cfg bcryptjs s w Hc)
    as [(k&e&rest&w'&Hk&Hf&_)|(_&w'&Hget&_&Hsame&_&Hcs&_&Hq)].
  - destruct (getStore_open_throws cfg bcryptjs s w k e rest Hc Hk Hf)
      as (w1&->&Hsame&Hcs&_&Hcont&_). cbn [snd].
    split; [by intros s' _|]. split; [by intros q _|].
    intros db c Hdb. rewrite Hcs. by apply lookup_app_l_Some.
  - rewrite Hget. cbn [snd]. split; [exact Hsame|]. split.
    + intros q Hne. destruct (Hq q Hne) as [Hf|Hq']; [|done]. unfold content. by rewrite Hf.
    + intros db c Hdb. rewrite Hcs. by apply lookup_app_l_Some.
Qed.

(** X8. An opening that failed is retried: when the engine fails while a
    store is opened or configured and does not fail afterwards, the getter
    throws, and the next call of the same getter opens the store again,
    runs the bootstrap on the still empty file and returns the handle of
    an open, fully configured connection. *)
Theorem getter_recovers_after_open_failure cfg bcryptjs s w (k : nat) e rest :
  cached s w = None →
  content (store_path cfg s) w = empty_database →
  (k ≤ 5)%nat →
  faults w = replicate k None ++ Some e :: rest →
  quiet rest →
  (getStore cfg bcryptjs s w).1 = Throws e
  ∧ ∃ db w2,
      getStore cfg bcryptjs s (getStore cfg bcryptjs s w).2 = (Returns (Some db), w2)
      ∧ cached s w2 = Some db
      ∧ conns w2 !! db = Some (opened cfg (store_path cfg s))
      ∧ ∃ t, content (store_path cfg s) w2 = bootstrapped bcryptjs s t.
Proof.
  intros Hc Hempty Hk Hf Hquiet.
  destruct (getStore_open_throws cfg bcryptjs s w k e rest Hc Hk Hf)
    as (w1&->&Hsame&_&_&Hcont&Hfl). cbn [fst snd]. split; [done|].
  destruct (getStore_fresh cfg bcryptjs s w1) as (w2&Hget&Hc2&_&_&Hcs&Hb&_).
  - by rewrite Hsame.
  - by rewrite Hcont.
  - by rewrite Hfl.
  - exists (length (conns w1)), w2. split; [exact Hget|]. split; [exact Hc2|].
    split; [rewrite Hcs; by apply list_lookup_middle|]. by eexists.
Qed.

Lemma getter_recovers_after_open_failure_witness :
  (getStore example_config example_bcrypt Audit (fresh_process [Some cannot_open])).1
  = Throws cannot_open
  ∧ ∃ db w2,
      getStore example_config example_bcrypt Audit
        (getStore example_config example_bcrypt Audit (fresh_process [Some cannot_open])).2
      = (Returns (Some db), w2)
      ∧ cached Audit w2 = Some db
      ∧ conns w2 !! db = Some (opened example_config (store_path example_config Audit))
      ∧ ∃ t, content (store_path example_config Audit) w2
             = bootstrapped example_bcrypt Audit t.
Proof.
  apply (getter_recovers_after_open_failure example_config example_bcrypt Audit
           (fresh_process [Some cannot_open]) 0 cannot_open []).
  - reflexivity.
  - reflexivity.
  - lia.
  - reflexivity.
  - apply Forall_nil_2.
Defined.

(** ** What a bootstrap adds *)

Lemma keeps_refl d : keeps d d.
Proof. split; [|done]. intros name t Ht. by exists t. Qed.

Lemma keeps_trans d1 d2 d3 : keeps d1 d2 → keeps d2 d3 → keeps d1 d3.
Proof.
  intros [Ht12 Hi12] [Ht23 Hi23]. split; [|by auto].
  intros name t Ht. destruct (Ht12 _ _ Ht) as (t2&H2&Hc2&Hk2&Hr2).
  destruct (Ht23 _ _ H2) as (t3&H3&Hc3&Hk3&Hr3).
  exists t3. repeat split; [done|congruence|congruence|by etrans].
Qed.

Lemma insert_or_ignore_keeps fk now name cols vals d d' :
  insert_or_ignore fk now name cols vals d = Returns d' → keeps d d'.
Proof.
  unfold insert_or_ignore. intros H.
  destruct (db_tables d !! name) as [t|] eqn:Ht; [|done].
  destruct (list_find _ cols) as [[? ?]|]; [done|].
  destruct (negb (bool_decide _)); [done|].
  destruct (negb (no_conflict _ _)); [injection H as <-; apply keeps_refl|].
  destruct (if fk then _ else _); [done|]. injection H as <-.
  split; [|done]. intros n t0 Ht0. cbn.
  destruct (decide (name = n)) as [<-|Hne].
  - rewrite lookup_insert_eq. eexists. split; [done|].
    assert (t0 = t) as -> by congruence. cbn. repeat split. by apply prefix_app_r.
  - rewrite lookup_insert_ne by done. by exists t0.
Qed.

Lemma exec_stmt_keeps fk now s d d' : exec_stmt fk now s d = Returns d' → keeps d d'.
Proof.
  destruct s as [name cols tcs|name tname cols|name cols vals]; cbn.
  - destruct (db_tables d !! name) eqn:Hn; intros [= <-]; [apply keeps_refl|].
    split; [|done]. intros n t Ht. cbn.
    rewrite lookup_insert_ne by congruence. by exists t.
  - destruct (db_indexes d !! name) eqn:Hn; [intros [= <-]; apply keeps_refl|].
    destruct (db_tables d !! tname); [|done].
    destruct (list_find _ cols) as [[? ?]|]; [done|]. intros [= <-].
    split; [intros n t0 Ht; by exists t0|]. intros n i Hi. cbn.
    rewrite lookup_insert_ne by congruence. done.
  - apply insert_or_ignore_keeps.
Qed.

Lemma op_database st : (op st).2.1.1 = st.1.1.
Proof. by destruct st as [[d t] [|[e|] fs]]. Qed.

Lemma step_keeps fk s st : keeps st.1.1 (step fk s st).2.1.1.
Proof.
  unfold step. pose proof (op_database st) as Hop.
  destruct (op st) as [[?|e] [[d t] fs]]; cbn in Hop; subst; [|apply keeps_refl].
  destruct (exec_stmt fk t s st.1.1) eqn:He; [|apply keeps_refl].
  by apply exec_stmt_keeps in He.
Qed.

Lemma run_keeps fk ss : ∀ st, keeps st.1.1 (run fk ss st).2.1.1.
Proof.
  induction ss as [|s ss IH]; intros st; cbn; [apply keeps_refl|].
  pose proof (step_keeps fk s st) as Hs.
  destruct (step fk s st) as [[?|e] st']; [|done].
  eapply keeps_trans; [exact Hs|apply IH].
Qed.

Lemma op_same d t fs : ∃ r t' fs', op (d, t, fs) = (r, (d, t', fs')).
Proof. destruct fs as [|[e|] fs]; by eexists _, _, _. Qed.

Lemma seed_keeps b fk st : keeps st.1.1 (seed b fk st).2.1.1.
Proof.
  unfold seed. destruct b as [bcrypt|e]; [|apply keeps_refl].
  destruct st as [[d t] fs].
  repeat first
    [ apply keeps_refl
    | match goal with
      | |- context [step ?fk ?s ?st] =>
          let H := fresh in
          pose proof (step_keeps fk s st) as H;
          destruct (step fk s st) as [[?|?] ?]; exact H
      | |- context [op (?d, ?t, ?f)] =>
          let H := fresh in
          destruct (op_same d t f) as (?&?&?&H); rewrite H; clear H
      | |- context [match ?x with _ => _ end] => destruct x eqn:?
      end ].
Qed.

Lemma boot_keeps b s fk st : keeps st.1.1 (boot b s fk st).2.1.1.
Proof.
  unfold boot. pose proof (run_keeps fk (concat (calls_of s)) st) as Hr.
  destruct (run fk (concat (calls_of s)) st) as [[?|e] st']; [|done].
  destruct s; [done| |done].
  pose proof (seed_keeps b fk st') as Hs.
  destruct (seed b fk st') as [entries st'']. by eapply keeps_trans.
Qed.

Lemma keeps_has_all ss d d' : keeps d d' → has_all ss d → has_all ss d'.
Proof.
  intros [Ht Hi] [Hts His]. split.
  - intros name Hn. destruct (Hts name Hn) as [t Hsome].
    destruct (Ht _ _ Hsome) as (t'&->&_). by eexists.
  - intros name Hn. destruct (His name Hn) as [i Hsome].
    rewrite (Hi _ _ Hsome). by eexists.
Qed.

Lemma exec_stmt_creates fk now s d d' :
  exec_stmt fk now s d = Returns d' → has_all [s] d'.
Proof.
  destruct s as [name cols tcs|name tname cols|name cols vals]; cbn; intros H.
  - split; [|intros n Hn; by apply elem_of_nil in Hn].
    intros n Hn. apply list_elem_of_singleton in Hn as ->.
    destruct (db_tables d !! name) eqn:Hd; injection H as <-; [by rewrite Hd|].
    cbn. rewrite lookup_insert_eq. by eexists.
  - split; [intros n Hn; by apply elem_of_nil in Hn|].
    intros n Hn. apply list_elem_of_singleton in Hn as ->.
    destruct (db_indexes d !! name) eqn:Hd; [injection H as <-; by rewrite Hd|].
    destruct (db_tables d !! tname); [|done].
    destruct (list_find _ cols) as [[? ?]|]; [done|]. injection H as <-.
    cbn. rewrite lookup_insert_eq. by eexists.
  - split; intros n Hn; by apply elem_of_nil in Hn.
Qed.

Lemma step_creates fk s st r st' :
  step fk s st = (Returns r, st') → has_all [s] st'.1.1.
Proof.
  unfold step. destruct (op st) as [[?|e] [[d t] fs]]; [|done].
  destruct (exec_stmt fk t s d) eqn:He; [|done]. intros [= <- <-].
  by apply exec_stmt_creates in He.
Qed.

Lemma has_all_cons s ss d : has_all [s] d → has_all ss d → has_all (s :: ss) d.
Proof.
  intros [Ht1 Hi1] [Ht2 Hi2]. split; intros name Hn.
  - unfold Order.created in *. cbn in Hn, Ht1.
    destruct (Order.creates s); [|by apply Ht2].
    apply elem_of_cons in Hn as [->|Hn]; [apply Ht1; by left|by apply Ht2].
  - unfold Names.indexes in *. cbn in Hn, Hi1.
    destruct s; try by apply Hi2.
    apply elem_of_cons in Hn as [->|Hn]; [apply Hi1; by left|by apply Hi2].
Qed.

(** When a run of statements returns, everything it creates is there. *)
Lemma run_creates fk ss : ∀ st r st',
  run fk ss st = (Returns r, st') → has_all ss st'.1.1.
Proof.
  induction ss as [|s ss IH]; intros st r st' H.
  { split; intros n Hn; by apply elem_of_nil in Hn. }
  cbn in H. destruct (step fk s st) as [[?|e] st1] eqn:Hs; [|done].
  apply has_all_cons; [|by eapply IH].
  apply step_creates in Hs. eapply keeps_has_all; [|exact Hs].
  pose proof (run_keeps fk ss st1) as Hk. by rewrite H in Hk.
Qed.

Lemma boot_creates b s fk st :
  (boot b s fk st).1.1 = Returns tt → has_all (concat (calls_of s)) (boot b s fk st).2.1.1.
Proof.
  unfold boot. destruct (run fk (concat (calls_of s)) st) as [[r|e] st'] eqn:Hr; [|done].
  apply run_creates in Hr. intros _. destruct s; [done| |done].
  pose proof (seed_keeps b fk st') as Hs.
  destruct (seed b fk st') as [entries st'']. by eapply keeps_has_all.
Qed.

(** ** What the getters leave alone and what they leave behind *)

(** X9. A getter call never drops or redefines a table, never removes or
    changes a row and never drops an index, in any file, whatever the
    engine does: the tables that exist keep their columns and constraints
    (CREATE TABLE IF NOT EXISTS does not migrate them) and their rows stay
    first, in order. *)
Theorem getter_only_adds cfg bcryptjs s w q :
  keeps (content q w) (content q (getStore cfg bcryptjs s w).2).
Proof.
  destruct (cached s w) as [h|] eqn:Hc.
  { rewrite (getStore_cached cfg bcryptjs s w h Hc). apply keeps_refl. }
  destruct (getStore_cold cfg bcryptjs s w Hc)
    as [(k&e&rest&w'&_&_&->&_&_&Hcont&_)|(_&w'&->&_&_&_&_&Hst&Hq)]; cbn [snd].
  { rewrite Hcont. apply keeps_refl. }
  destruct (decide (q = store_path cfg s)) as [->|Hne].
  - assert (content (store_path cfg s) w' = (estate (store_path cfg s) w').1.1) as -> by done.
    rewrite Hst. apply (boot_keeps bcryptjs s true (content (store_path cfg s) w, _, _)).
  - destruct (Hq q Hne) as [Hf| ->]; [|apply keeps_refl].
    unfold content. rewrite Hf. apply keeps_refl.
Qed.

(** X10. A getter call that finds its variable empty and returns has opened
    a new connection, and every table and every index of the store's
    bootstrap sequence is in the file, whatever the file held before. *)
Theorem opening_getter_leaves_the_schema cfg bcryptjs s w r w' :
  cached s w = None →
  getStore cfg bcryptjs s w = (Returns r, w') →
  r = Some (length (conns w))
  ∧ has_all (concat (calls_of s)) (content (store_path cfg s) w').
Proof.
  intros Hc Hget.
  destruct (getStore_cold cfg bcryptjs s w Hc)
    as [(k&e&rest&w1&_&_&Hthrow&_)|(_&w1&Hret&_&_&_&_&Hst&_)]; [congruence|].
  rewrite Hget in Hret.
  pose proof (boot_creates bcryptjs s true
                (content (store_path cfg s) w, (6 + clock w)%nat, drop 6 (faults w))) as Hall.
  destruct (boot bcryptjs s true _).1.1 as [[]|e] eqn:Hb; [|congruence].
  injection Hret as -> <-. split; [done|].
  assert (content (store_path cfg s) w' = (estate (store_path cfg s) w').1.1) as -> by done.
  rewrite Hst. by apply Hall.
Qed.

Lemma opening_getter_leaves_the_schema_witness :
  cached Audit (fresh_process []) = None
  ∧ Some 0%nat = Some (length (conns (fresh_process [])))
  ∧ has_all (concat (calls_of Audit))
      (content (store_path example_config Audit)
         (getStore example_config example_bcrypt Audit (fresh_process [])).2).
Proof.
  split; [reflexivity|].
  apply (opening_getter_leaves_the_schema example_config example_bcrypt Audit
           (fresh_process []) (Some 0%nat)
           (getStore example_config example_bcrypt Audit (fresh_process [])).2).
  - reflexivity.
  - apply pair_eta_fst. vm_cast_no_check (eq_refl (Returns (Some 0%nat))).
Defined.

(** ** The bootstrap functions *)

Lemma seed_admin_returns bcryptjs db w : (seed_admin bcryptjs db w).1 = Returns tt.
Proof.
  unfold seed_admin, try_catch.
  match goal with |- context [match ?body w with _ => _ end] => destruct (body w) as [[[]|e] w'] end;
    reflexivity.
Qed.

(** X11. A bootstrap function returns or throws exactly as its [db.exec]
    calls do: what goes wrong while the default administrator is seeded
    (the hashing library missing, a prepare, get or run that throws) never
    reaches the caller. The last entry of the log tells which: the success
    entry, or the error entry with the error thrown. *)
Theorem bootstrap_fails_only_on_a_statement bcryptjs s db w :
  (ensureTables bcryptjs s db w).1 = (exec_calls db (calls_of s) w).1
  ∧ last (logged (ensureTables bcryptjs s db w).2)
    = Some match (exec_calls db (calls_of s) w).1 with
           | Returns _ => success_entry s
           | Throws e => failure_entry s e
           end.
Proof.
  destruct s; cbn [ensureTables calls_of];
    unfold ensureCoreTables, ensureAuthTables, ensureAuditTables, try_catch,
      mbind, M_bind, logger, throw, success_entry, failure_entry.
  - destruct (exec_calls db CoreDdl.calls w) as [[[]|e] w']; cbn; by rewrite last_snoc.
  - destruct (exec_calls db AuthDdl.calls w) as [[[]|e] w']; cbn [fst snd].
    + pose proof (seed_admin_returns bcryptjs db w') as Hs.
      destruct (seed_admin bcryptjs db w') as [[[]|e] w'']; [|done].
      cbn. by rewrite last_snoc.
    + cbn. by rewrite last_snoc.
  - destruct (exec_calls db AuditDdl.calls w) as [[[]|e] w']; cbn; by rewrite last_snoc.
Qed.

(** ** A bootstrap that fails half way *)

Lemma run_app fk l1 l2 st :
  run fk (l1 ++ l2) st
  = match run fk l1 st with
    | (Returns _, st') => run fk l2 st'
    | (Throws e, st') => (Throws e, st')
    end.
Proof.
  revert st. induction l1 as [|s l1 IH]; intros st; cbn; [done|].
  destruct (step fk s st) as [[?|e] st']; [apply IH|done].
Qed.

(** A run that returns on an engine that never fails returns the same on
    an engine that does not fail for as many operations. *)
Lemma run_quiet fk ss : ∀ d t fs r st',
  run fk ss (d, t, []) = (Returns r, st') →
  run fk ss (d, t, replicate (length ss) None ++ fs) = (Returns tt, (st'.1.1, st'.1.2, fs)).
Proof.
  induction ss as [|s ss IH]; intros d t fs r st' H; cbn in *.
  { injection H as _ <-. done. }
  unfold step in *. cbn [op] in *.
  destruct (exec_stmt fk (S t) s d) as [d1|e]; [|done].
  by apply (IH d1 (S t) fs r st').
Qed.

Lemma exec_stmt_only fk now s d d' name :
  exec_stmt fk now s d = Returns d' →
  is_Some (db_tables d' !! name) →
  is_Some (db_tables d !! name) ∨ Order.creates s = Some name.
Proof.
  destruct s as [n cols tcs|n tname cols|n cols vals]; cbn.
  - destruct (db_tables d !! n) eqn:Hn; intros [= <-]; [by left|]. cbn.
    destruct (decide (n = name)) as [->|Hne]; [by right|].
    rewrite lookup_insert_ne by done. by left.
  - destruct (db_indexes d !! n); [intros [= <-]; by left|].
    destruct (db_tables d !! tname); [|done].
    destruct (list_find _ cols) as [[? ?]|]; [done|]. intros [= <-]. by left.
  - unfold insert_or_ignore.
    destruct (db_tables d !! n) as [t|] eqn:Ht; [|done].
    destruct (list_find _ cols) as [[? ?]|]; [done|].
    destruct (negb (bool_decide _)); [done|].
    destruct (negb (no_conflict _ _)); [intros [= <-]; by left|].
    destruct (if fk then _ else _); [done|]. intros [= <-]. cbn.
    destruct (decide (n = name)) as [->|Hne]; [rewrite Ht; left; by eexists|].
    rewrite lookup_insert_ne by done. by left.
Qed.

(** A run of statements adds no table but those it creates. *)
Lemma run_only fk ss name : ∀ st,
  is_Some (db_tables (run fk ss st).2.1.1 !! name) →
  is_Some (db_tables st.1.1 !! name) ∨ name ∈ Order.created ss.
Proof.
  induction ss as [|s ss IH]; intros st; cbn; [by left|].
  unfold step. pose proof (op_same st.1.1 st.1.2 st.2) as (r&t'&fs'&Hop).
  destruct st as [[d t] fs]. cbn [fst snd] in Hop. rewrite Hop.
  destruct r as [[]|e]; [|by left].
  destruct (exec_stmt fk t' s d) as [d1|e] eqn:He.
  - intros H. apply IH in H as [H|H]; cbn [fst snd] in H.
    + destruct (exec_stmt_only _ _ _ _ _ name He H) as [?|Hc]; [by left|right].
      unfold Order.created. cbn. rewrite Hc. by left.
    + right. unfold Order.created in *. cbn. destruct (Order.creates s); [by right|done].
  - by left.
Qed.

Lemma created_nodup (store : store) : NoDup (Order.created (concat (calls_of store))).
Proof.
  assert (H : bool_decide (NoDup (Order.created (concat (calls_of store)))) = true)
    by (destruct store; vm_cast_no_check (eq_refl true)).
  by apply bool_decide_eq_true in H.
Qed.

Lemma run_fresh_returns s t :
  (run true (concat (calls_of s)) (empty_database, t, [])).1 = Returns tt.
Proof.
  pose proof (boot_fresh_returns (Throws (Error "")) s t) as H. unfold boot in H.
  by destruct (run true (concat (calls_of s)) (empty_database, t, [])) as [[[]|e] st'].
Qed.

(** A bootstrap on an empty file whose engine fails at the statement after
    [pre]. *)
Lemma boot_fails_after bcryptjs s pre s0 post t e rest :
  concat (calls_of s) = pre ++ s0 :: post →
  ∃ d t',
    boot bcryptjs s true (empty_database, t, replicate (length pre) None ++ Some e :: rest)
    = (Throws e, [failure_entry s e], (d, t', rest))
    ∧ has_all pre d
    ∧ ∀ name, name ∈ Order.created (s0 :: post) → db_tables d !! name = None.
Proof.
  intros Hsplit.
  pose proof (run_fresh_returns s t) as Hall. rewrite Hsplit, run_app in Hall.
  destruct (run true pre (empty_database, t, [])) as [[[]|e'] [[d t1] fs1]] eqn:Hpre; [|done].
  clear Hall.
  pose proof (run_quiet true pre empty_database t (Some e :: rest) _ _ Hpre) as Hq.
  cbn [fst snd] in Hq.
  exists d, (S t1). split; [|split].
  - unfold boot. rewrite Hsplit, run_app, Hq. reflexivity.
  - by apply run_creates in Hpre.
  - intros name Hname. apply eq_None_not_Some. intros Hsome.
    pose proof (run_only true pre name (empty_database, t, [])) as Honly.
    rewrite Hpre in Honly. destruct (Honly Hsome) as [Hempty|Hin].
    + cbn in Hempty. rewrite lookup_empty in Hempty. by destruct Hempty.
    + pose proof (created_nodup s) as Hnd. rewrite Hsplit, created_app in Hnd.
      apply NoDup_app in Hnd as (_&Hdisj&_). by apply (Hdisj name).
Qed.

(** X12. No transaction wraps a bootstrap: when the engine fails at one of
    the statements while a getter bootstraps an empty file, the getter
    throws that error, logs it as the last entry, and the file keeps what
    the statements before it created, and none of the tables that the
    failing statement and those after it would have created. *)
Theorem failed_bootstrap_is_not_undone cfg bcryptjs s w pre s0 post e rest :
  cached s w = None →
  content (store_path cfg s) w = empty_database →
  concat (calls_of s) = pre ++ s0 :: post →
  faults w = replicate (6 + length pre) None ++ Some e :: rest →
  (getStore cfg bcryptjs s w).1 = Throws e
  ∧ last (logged (getStore cfg bcryptjs s w).2) = Some (failure_entry s e)
  ∧ has_all pre (content (store_path cfg s) (getStore cfg bcryptjs s w).2)
  ∧ ∀ name, name ∈ Order.created (s0 :: post) →
      db_tables (content (store_path cfg s) (getStore cfg bcryptjs s w).2) !! name = None.
Proof.
  intros Hc Hempty Hsplit Hf.
  assert (Hdrop : drop 6 (faults w) = replicate (length pre) None ++ Some e :: rest).
  { rewrite Hf, replicate_add, <- app_assoc. by rewrite drop_app_length'. }
  destruct (getStore_cold cfg bcryptjs s w Hc)
    as [(k&e'&rest'&w'&Hk&Hf'&_)|(_&w'&Hget&_&_&Hlog&_&Hst&_)].
  { rewrite Hf in Hf'. apply first_fault_unique in Hf' as (Hk'&_). lia. }
  rewrite Hempty, Hdrop in Hget, Hlog, Hst.
  destruct (boot_fails_after bcryptjs s pre s0 post (6 + clock w)%nat e rest Hsplit)
    as (d&t'&Hboot&Hall&Hnone).
  rewrite Hboot in Hget, Hlog, Hst. cbn [fst snd] in Hget, Hlog, Hst.
  rewrite Hget. cbn [fst snd].
  assert (content (store_path cfg s) w' = (estate (store_path cfg s) w').1.1) as -> by done.
  rewrite Hst, Hlog. cbn [fst snd]. split; [done|]. split; [|done].
  by rewrite (last_app_cons _ [_]).
Qed.

Lemma failed_bootstrap_is_not_undone_witness :
  (getStore example_config example_bcrypt Audit
     (fresh_process (replicate 7 None ++ [Some disk_full]))).1 = Throws disk_full
  ∧ has_all (take 1 (concat AuditDdl.calls))
      (content "data/audit.db"
         (getStore example_config example_bcrypt Audit
            (fresh_process (replicate 7 None ++ [Some disk_full]))).2).
Proof.
  destruct (failed_bootstrap_is_not_undone example_config example_bcrypt Audit
              (fresh_process (replicate 7 None ++ [Some disk_full]))
              (take 1 (concat AuditDdl.calls))
              (CREATE_INDEX_IF_NOT_EXISTS "idx_audit_entidade" "audit_log" ["entidade"; "entidade_id"])
              (drop 2 (concat AuditDdl.calls)) disk_full [])
    as (H1&_&H2&_).
  - reflexivity.
  - reflexivity.
  - reflexivity.
  - reflexivity.
  - split; [exact H1|exact H2].
Defined.

(** ** [closeAll] *)

(** X13. [closeAll] logs one entry for each store whose variable held a
    handle, in the order core, auth, audit, and nothing for a store that
    was not open. *)
Theorem closeAll_logs_what_it_closes w :
  logged (closeAll w).2 = logged w ++ closed_entries w.
Proof.
  rewrite closeAll_unfold. cbn [snd].
  pose proof (close_one_spec Core w) as (_&_&Hcore&_&Hl1).
  pose proof (close_one_spec Auth (close_one Core w)) as (_&_&Hauth&_&Hl2).
  pose proof (close_one_spec Audit (close_one Auth (close_one Core w))) as (_&_&_&_&Hl3).
  rewrite Hl3, Hl2, Hl1, (Hauth Audit), (Hcore Audit), (Hcore Auth) by done.
  unfold closed_entries. cbn [fmap list_fmap concat].
  by rewrite app_nil_r, <- !app_assoc.
Qed.


(** ** Handles held by the module *)

Lemma getStore_held_well cfg bcryptjs s w :
  held_well cfg w → held_well cfg (getStore cfg bcryptjs s w).2.
Proof.
  intros [Hopen Hdistinct].
  destruct (cached s w) as [h|] eqn:Hc.
  { by rewrite (getStore_cached cfg bcryptjs s w h Hc). }
  destruct (getStore_cold cfg bcryptjs s w Hc)
    as [(k&e&rest&w'&Hk&Hf&_)|(_&w'&->&Hnew&Hsame&_&Hcs&_)]; cbn [snd].
  - destruct (getStore_open_throws cfg bcryptjs s w k e rest Hc Hk Hf)
      as (w1&->&Hsame&Hcs&_). cbn [snd]. split.
    + intros s' db Hs'. rewrite Hsame in Hs'. rewrite Hcs.
      by apply lookup_app_l_Some, Hopen.
    + intros s1 s2 db H1 H2. rewrite Hsame in H1, H2. by eapply Hdistinct.
  - assert (Hold : ∀ s' db, s' ≠ s → cached s' w' = Some db → (db < length (conns w))%nat).
    { intros s' db Hne Hs'. rewrite Hsame in Hs' by done.
      apply Hopen in Hs'. by eapply lookup_lt_Some. }
    split.
    + intros s' db Hs'. rewrite Hcs. destruct (decide (s' = s)) as [->|Hne].
      * rewrite Hnew in Hs'. injection Hs' as <-. by apply list_lookup_middle.
      * rewrite Hsame in Hs' by done. by apply lookup_app_l_Some, Hopen.
    + intros s1 s2 db H1 H2.
      destruct (decide (s1 = s)) as [->|Hne1], (decide (s2 = s)) as [->|Hne2]; [done|..].
      * rewrite Hnew in H1. injection H1 as <-. apply Hold in H2; [lia|done].
      * rewrite Hnew in H2. injection H2 as <-. apply Hold in H1; [lia|done].
      * rewrite Hsame in H1, H2 by done. by eapply Hdistinct.
Qed.

Lemma closeAll_held_well cfg w : held_well cfg (closeAll w).2.
Proof.
  destruct (closeAll_spec w) as (w'&->&Hnone&_). cbn [snd].
  split; [intros s db|intros s s' db]; by rewrite Hnone.
Qed.

Lemma call_all_held_well cfg bcryptjs calls : ∀ w,
  held_well cfg w → held_well cfg (call_all cfg bcryptjs calls w).
Proof.
  unfold call_all. induction calls as [|c calls IH]; intros w Hw; [done|].
  cbn [foldl]. apply IH. destruct c as [s|]; cbn [call_one].
  - by apply getStore_held_well.
  - apply closeAll_held_well.
Qed.

(** X14. However the getters and [closeAll] are called after the module is
    loaded, and whatever fails in the engine meanwhile, a handle held in a
    variable of the module is always an open connection on the file of its
    own store, with the five directives of [initDatabase] applied, and no
    two stores share a handle. *)
Theorem held_handles_are_open_and_configured cfg bcryptjs fs calls s db :
  cached s (call_all cfg bcryptjs calls (fresh_process fs)) = Some db →
  conns (call_all cfg bcryptjs calls (fresh_process fs)) !! db
  = Some (opened cfg (store_path cfg s))
  ∧ conn_open (opened cfg (store_path cfg s)) = true
  ∧ foreign_keys (opened cfg (store_path cfg s)) = true
  ∧ ∀ s', cached s' (call_all cfg bcryptjs calls (fresh_process fs)) = Some db → s' = s.
Proof.
  intros Hs.
  destruct (call_all_held_well cfg bcryptjs calls (fresh_process fs)) as [Hopen Hdistinct].
  { split; [intros s0 db0|intros s0 s1 db0]; by destruct s0. }
  split; [by apply Hopen|]. split; [reflexivity|]. split; [reflexivity|].
  intros s' Hs'. by eapply Hdistinct.
Qed.

Lemma held_handles_are_open_and_configured_witness :
  conns (call_all example_config example_bcrypt [Get Audit; CloseAll; Get Audit]
           (fresh_process [])) !! 1%nat
  = Some (opened example_config "data/audit.db").
Proof.
  apply (held_handles_are_open_and_configured example_config example_bcrypt []
           [Get Audit; CloseAll; Get Audit] Audit 1).
  vm_cast_no_check (eq_refl (Some 1%nat)).
Defined.
